(* Shallow embedding of the ECS scheduler (scheduler/ecs/ecs.go) and of the
   ELB load-balancer manager (pkg/lb) of empire.

   Conventions of the embedding:
   - Go strings are String.string; Go's 64-bit uint and int64 are Z with
     their wrap-around written out (to_int64, to_uint).
   - Go maps are stdpp gmaps; a `range` over a map visits its entries in an
     unspecified order, modelled by stdpp's map_to_list order.  Every
     statement below about a map loop is independent of that order.
   - Errors are values, as in Go: an operation returns an `option error`
     (nil is None).
   - Backends (ECS, ELB) are opaque functions over a world state; every call
     the code makes is recorded in a log, so the order of calls can be
     stated.
   - A pointer field that the code dereferences without a nil check is
     modelled as a plain value (the backend API always fills it); a pointer
     field that the code tests against nil is modelled as an option. *)

From stdpp Require Import gmap strings list fin_maps.
From Stdlib Require Import Ascii.

Open Scope string_scope.

(* ------------------------------------------------------------------ *)
(** * Errors and the call-logging state monad *)

(** Go errors: errors from the AWS SDK implement awserr.Error (a code and
    a message); every other error is a plain message. *)
Inductive error :=
| AwsErr (code message : string)
| GoErr (message : string).

(** A computation over a backend world [St] that logs the backend calls
    [Ev] it makes and returns an [A]. *)
Definition M (St Ev A : Type) : Type := St -> St * list Ev * A.

Definition ret {St Ev A} (a : A) : M St Ev A := fun s => (s, [], a).

Definition bind {St Ev A B} (c : M St Ev A) (k : A -> M St Ev B) : M St Ev B :=
  fun s => let '(s1, l1, a) := c s in
           let '(s2, l2, b) := k a s1 in (s2, app l1 l2, b).

Notation "x <- c ;; k" := (bind c (fun x => k))
  (at level 65, c at next level, right associativity).

(** Issue a backend call: log it, then let the backend answer. *)
Definition call {St Ev A} (ev : Ev) (f : St -> St * A) : M St Ev A :=
  fun s => let '(s1, a) := f s in (s1, [ev], a).

Lemma bind_run {St Ev A B} (c : M St Ev A) (k : A -> M St Ev B) s :
  bind c k s = let '(s1, l1, a) := c s in
               let '(s2, l2, b) := k a s1 in (s2, app l1 l2, b).
Proof. reflexivity. Qed.

(* ------------------------------------------------------------------ *)
(** * Go integer conversions *)

Definition two64 : Z := (2 ^ 64)%Z.

(** uint(x) for a 64-bit value. *)
Definition to_uint (x : Z) : Z := (x mod two64)%Z.

(** int64(x): two's complement reinterpretation of the low 64 bits. *)
Definition to_int64 (x : Z) : Z :=
  let m := (x mod two64)%Z in if Z.ltb m (2 ^ 63)%Z then m else (m - two64)%Z.

(** bytesize.MB *)
Definition MB : Z := (2 ^ 20)%Z.

(* ------------------------------------------------------------------ *)
(** * scheduler.Process and scheduler.App *)

Record PortMap := { Host : option Z; Container : option Z }.

Record Process := {
  Type_ : string;
  Command : string;
  Env : gmap string string;
  Image : string;            (* p.Image.String() *)
  CPUShares : Z;             (* uint *)
  MemoryLimit : Z;           (* uint, bytes *)
  Instances : Z;             (* uint *)
  Ports : list PortMap;
  LoadBalancer : string
}.

Record App := { ID : string; Processes : list Process }.

(** A process with only its type set, the rest at Go's zero values. *)
Definition process_of_type (t : string) : Process :=
  {| Type_ := t; Command := ""; Env := ∅; Image := ""; CPUShares := 0;
     MemoryLimit := 0; Instances := 0; Ports := []; LoadBalancer := "" |}.

(* ------------------------------------------------------------------ *)
(** * processTypes and diffProcessTypes (ecs.go) *)

Definition processTypes (processes : list Process) : gmap string unit :=
  foldl (fun m p => <[Type_ p := tt]> m) ∅ processes.

Definition diffProcessTypes (old new : list Process) : list string :=
  let om := processTypes old in
  let nm := processTypes new in
  foldl (fun types (e : string * unit) =>
           match nm !! e.1 with
           | Some _ => types
           | None => app types [e.1]
           end) [] (map_to_list om).

(* ------------------------------------------------------------------ *)
(** * Config and validateLoadBalancedConfig (ecs.go) *)

Record Config := {
  Cluster : string;
  ServiceRole : string;
  VPC : string;
  ZoneID : string;
  InternalSecurityGroupID : string;
  ExternalSecurityGroupID : string;
  InternalSubnetIDs : list string;
  ExternalSubnetIDs : list string;
  AWS : string                (* *aws.Config, opaque *)
}.

Definition validateLoadBalancedConfig (c : Config) : option error :=
  let r := fun n => Some (GoErr (n +:+ " is required")) in
  if String.eqb (Cluster c) "" then r "Cluster" else
  if String.eqb (ServiceRole c) "" then r "ServiceRole" else
  if String.eqb (ZoneID c) "" then r "ZoneID" else
  if String.eqb (InternalSecurityGroupID c) "" then r "InternalSecurityGroupID" else
  if String.eqb (ExternalSecurityGroupID c) "" then r "ExternalSecurityGroupID" else
  if Nat.eqb (length (InternalSubnetIDs c)) 0 then r "InternalSubnetIDs" else
  if Nat.eqb (length (ExternalSubnetIDs c)) 0 then r "ExternalSubnetIDs" else
  None.

(** Side effects of the constructor: building the clients. *)
Inductive ctor_event :=
| NewECSClient (aws : string)
| NewELBManager (aws : string)
| NewRoute53Nameserver (aws : string).

(** What the constructor builds: the process-manager chain
    LBProcessManager{ecsProcessManager, WithLogging(WithCNAME(ELBManager))}. *)
Record ELBManager := {
  elb_InternalSecurityGroupID : string;
  elb_ExternalSecurityGroupID : string;
  elb_InternalSubnetIDs : list string;
  elb_ExternalSubnetIDs : list string
}.

Record Scheduler := {
  sch_cluster : string;
  pm_cluster : string;
  pm_serviceRole : string;
  sch_elb : ELBManager;
  sch_zoneID : string
}.

Definition NewLoadBalancedScheduler (config : Config)
  : list ctor_event * (option Scheduler * option error) :=
  match validateLoadBalancedConfig config with
  | Some err => ([], (None, Some err))
  | None =>
      let elb := {| elb_InternalSecurityGroupID := InternalSecurityGroupID config;
                    elb_ExternalSecurityGroupID := ExternalSecurityGroupID config;
                    elb_InternalSubnetIDs := InternalSubnetIDs config;
                    elb_ExternalSubnetIDs := ExternalSubnetIDs config |} in
      ([NewECSClient (AWS config); NewELBManager (AWS config);
        NewRoute53Nameserver (AWS config)],
       (Some {| sch_cluster := Cluster config; pm_cluster := Cluster config;
                pm_serviceRole := ServiceRole config; sch_elb := elb;
                sch_zoneID := ZoneID config |}, None))
  end.

(** The required fields of a load-balanced config, in the order the spec
    lists them, each with whether it is missing. *)
Definition missing_fields (c : Config) : list string :=
  map fst (filter (fun x : string * bool => x.2 = true)
    [("Cluster", String.eqb (Cluster c) "");
     ("ServiceRole", String.eqb (ServiceRole c) "");
     ("ZoneID", String.eqb (ZoneID c) "");
     ("InternalSecurityGroupID", String.eqb (InternalSecurityGroupID c) "");
     ("ExternalSecurityGroupID", String.eqb (ExternalSecurityGroupID c) "");
     ("InternalSubnetIDs", bool_decide (InternalSubnetIDs c = []));
     ("ExternalSubnetIDs", bool_decide (ExternalSubnetIDs c = []))]).

(* ------------------------------------------------------------------ *)
(** * Scheduler.Submit over the ProcessManager interface (ecs.go) *)

(** Calls made on the embedded ProcessManager. *)
Inductive pm_call :=
| PMProcesses (appID : string)
| PMCreateProcess (app : App) (p : Process)
| PMRemoveProcess (appID : string) (process : string).

Section SchedulerSubmit.

(** The ProcessManager the Scheduler embeds, over its backend world [S]:
    Processes returns the processes gathered so far and an error. *)
Variable S : Type.
Variable pm_Processes : S -> string -> S * (list Process * option error).
Variable pm_CreateProcess : S -> App -> Process -> S * option error.
Variable pm_RemoveProcess : S -> string -> string -> S * option error.

Definition listProcesses (appID : string) : M S pm_call (list Process * option error) :=
  call (PMProcesses appID) (fun s => pm_Processes s appID).

Definition CreateProcess (app : App) (p : Process) : M S pm_call (option error) :=
  call (PMCreateProcess app p) (fun s => pm_CreateProcess s app p).

Definition RemoveProcess (appID process : string) : M S pm_call (option error) :=
  call (PMRemoveProcess appID process) (fun s => pm_RemoveProcess s appID process).

(** for _, p := range app.Processes { if err := m.CreateProcess(..); err != nil { return err } } *)
Fixpoint createAll (app : App) (ps : list Process) : M S pm_call (option error) :=
  match ps with
  | [] => ret None
  | p :: ps' =>
      err <- CreateProcess app p ;;
      match err with
      | Some e => ret (Some e)
      | None => createAll app ps'
      end
  end.

(** for _, p := range toRemove { if err := m.RemoveProcess(..); err != nil { return err } } *)
Fixpoint removeAll (appID : string) (ts : list string) : M S pm_call (option error) :=
  match ts with
  | [] => ret None
  | t :: ts' =>
      err <- RemoveProcess appID t ;;
      match err with
      | Some e => ret (Some e)
      | None => removeAll appID ts'
      end
  end.

Definition Submit (app : App) : M S pm_call (option error) :=
  r <- listProcesses (ID app) ;;
  match r with
  | (_, Some e) => ret (Some e)
  | (processes, None) =>
      err <- createAll app (Processes app) ;;
      match err with
      | Some e => ret (Some e)
      | None =>
          let toRemove := diffProcessTypes processes (Processes app) in
          removeAll (ID app) toRemove
      end
  end.

End SchedulerSubmit.

(* ------------------------------------------------------------------ *)
(** * ecsProcessManager.RemoveProcess and noService (ecs.go) *)

Record UpdateServiceInput := {
  usi_Cluster : option string;
  usi_DesiredCount : option Z;
  usi_Service : option string;
  usi_TaskDefinition : option string
}.

Record DeleteServiceInput := {
  dsi_Cluster : option string;
  dsi_Service : option string
}.

(** Calls made on the ECS client (ecsutil.Client). *)
Inductive ecs_call :=
| ECSUpdateAppService (app : string) (input : UpdateServiceInput)
| ECSDeleteAppService (app : string) (input : DeleteServiceInput).

Record ecsProcessManager := { cluster : string; serviceRole : string }.

Definition noService (err : option error) : bool :=
  match err with
  | Some (AwsErr _ msg) =>
      if String.eqb msg "Service was not ACTIVE." then true else
      if String.eqb msg "Could not find returned type com.amazon.madison.cmb#CMServiceNotActiveException in model" then true else
      if String.eqb msg "Could not find returned type com.amazon.madison.cmb#CMServiceNotFoundException in model" then true else
      if String.eqb msg "Service not found." then true else
      false
  | _ => false
  end.

Section EcsRemove.

(** The ECS backend; the responses of UpdateService and DeleteService are
    not read by the code below, only their errors. *)
Variable E : Type.
Variable ecs_UpdateAppService : E -> string -> UpdateServiceInput -> E * option error.
Variable ecs_DeleteAppService : E -> string -> DeleteServiceInput -> E * option error.

Definition scaleInput (m : ecsProcessManager) (process : string) (instances : Z)
  : UpdateServiceInput :=
  {| usi_Cluster := Some (cluster m); usi_DesiredCount := Some (to_int64 instances);
     usi_Service := Some process; usi_TaskDefinition := None |}.

Definition deleteInput (m : ecsProcessManager) (process : string) : DeleteServiceInput :=
  {| dsi_Cluster := Some (cluster m); dsi_Service := Some process |}.

Definition Scale (m : ecsProcessManager) (app process : string) (instances : Z)
  : M E ecs_call (option error) :=
  let input := scaleInput m process instances in
  call (ECSUpdateAppService app input) (fun e => ecs_UpdateAppService e app input).

Definition ecsRemoveProcess (m : ecsProcessManager) (app process : string)
  : M E ecs_call (option error) :=
  err <- Scale m app process 0 ;;
  if noService err then ret None else
  match err with
  | Some e => ret (Some e)
  | None =>
      let input := deleteInput m process in
      err <- call (ECSDeleteAppService app input) (fun e => ecs_DeleteAppService e app input) ;;
      if noService err then ret None else ret err
  end.

End EcsRemove.

(* ------------------------------------------------------------------ *)
(** * Results of fallible Go functions returning (T, error) *)

Inductive result (A : Type) := Ok (a : A) | Err (e : error).
Arguments Ok {A} a.
Arguments Err {A} e.

(* ------------------------------------------------------------------ *)
(** * shellwords.Parse *)

(** The command of a process is split by go-shellwords' Parse (a
    dependency of the repository; environment and backquote expansion are
    off by default):

      line = strings.TrimSpace(line)
      for _, r := range line { ... }

    A Go string is a sequence of bytes.  strings.TrimSpace and the range
    loop read it as UTF-8 with unicode/utf8, an invalid byte being read as
    utf8.RuneError of width 1; the model keeps the bytes and writes the
    decoding out. *)

Definition chr (n : nat) : ascii := ascii_of_nat n.

Definition byteIn (b : ascii) (lo hi : nat) : bool :=
  Nat.leb lo (nat_of_ascii b) && Nat.leb (nat_of_ascii b) hi.

(** The [first] and [acceptRanges] tables of unicode/utf8 for a byte
    >= 0x80: the size of the sequence it starts and the accepted range of
    the second byte; [None] for a byte that starts no sequence (0x80-0xC1
    and 0xF5-0xFF). *)
Definition firstInfo (c : ascii) : option (nat * nat * nat) :=
  let n := nat_of_ascii c in
  if Nat.ltb n 194 then None
  else if Nat.leb n 223 then Some (2, 128, 191)
  else if Nat.eqb n 224 then Some (3, 160, 191)
  else if Nat.leb n 236 then Some (3, 128, 191)
  else if Nat.eqb n 237 then Some (3, 128, 159)
  else if Nat.leb n 239 then Some (3, 128, 191)
  else if Nat.eqb n 240 then Some (4, 144, 191)
  else if Nat.leb n 243 then Some (4, 128, 191)
  else if Nat.eqb n 244 then Some (4, 128, 143)
  else None.

(** utf8.DecodeRuneInString on the bytes [String c s]: the size of the
    rune read and whether it is valid ([false] for utf8.RuneError). *)
Definition decodeRune (c : ascii) (s : string) : nat * bool :=
  if Nat.ltb (nat_of_ascii c) 128 then (1, true) else
  match firstInfo c with
  | None => (1, false)
  | Some (size, lo, hi) =>
      match s with
      | EmptyString => (1, false)
      | String s1 s' =>
          if negb (byteIn s1 lo hi) then (1, false)
          else if Nat.eqb size 2 then (2, true) else
          match s' with
          | EmptyString => (1, false)
          | String s2 s'' =>
              if negb (byteIn s2 128 191) then (1, false)
              else if Nat.eqb size 3 then (3, true) else
              match s'' with
              | EmptyString => (1, false)
              | String s3 _ => if byteIn s3 128 191 then (4, true) else (1, false)
              end
          end
      end
  end.

(** utf8.RuneStart *)
Definition runeStart (b : ascii) : bool := negb (byteIn b 128 191).

(** The loop of utf8.DecodeLastRuneInString looking back from index [i]
    for a byte that starts a rune, over at most [k] bytes. *)
Fixpoint lastStart (s : string) (i k : nat) : option nat :=
  match k with
  | O => None
  | S k' =>
      match String.get i s with
      | Some b => if runeStart b then Some i else lastStart s (i - 1) k'
      | None => None
      end
  end.

(** utf8.DecodeLastRuneInString on a non-empty [s]: the size of its last
    rune and whether it is valid.  The look-back runs from len(s)-2 down
    to lim = len(s)-4 (at least 0); when it finds no rune start, start is
    lim-1, or 0 when that is negative. *)
Definition decodeLastRune (s : string) : nat * bool :=
  let n := String.length s in
  match String.get (n - 1) s with
  | None => (0, false)
  | Some b =>
      if Nat.ltb (nat_of_ascii b) 128 then (1, true) else
      let lim := n - 4 in
      let start := match lastStart s (n - 2) (n - 1 - lim) with
                   | Some i => i
                   | None => lim - 1
                   end in
      match String.substring start (n - start) s with
      | EmptyString => (1, false)
      | String c s' =>
          let '(size, valid) := decodeRune c s' in
          if Nat.eqb (start + size) n then (size, valid) else (1, false)
      end
  end.

(** utf8.RuneError as string(r): the bytes EF BF BD. *)
Definition runeErrorBytes : string :=
  String (chr 239) (String (chr 191) (String (chr 189) EmptyString)).

(** The runes a range loop over [s] yields, each as string(r): the bytes
    of a valid rune, and runeErrorBytes for an invalid byte.  Each rune
    takes at least one byte, so [fuel] = length s suffices. *)
Fixpoint runes (fuel : nat) (s : string) : list string :=
  match fuel with
  | O => []
  | S fuel' =>
      match s with
      | EmptyString => []
      | String c s' =>
          let '(size, valid) := decodeRune c s' in
          (if valid then String.substring 0 size s else runeErrorBytes) ::
          runes fuel' (String.substring size (String.length s - size) s)
      end
  end.

Definition str1 (c : ascii) : string := String c EmptyString.
Definition str2 (a b : nat) : string := String (chr a) (str1 (chr b)).
Definition str3 (a b c : nat) : string := String (chr a) (str2 b c).

(** unicode.IsSpace, on the bytes of a valid rune: \t \n \v \f \r and
    space, U+0085, U+00A0, U+1680, U+2000-U+200A, U+2028, U+2029,
    U+202F, U+205F and U+3000. *)
Definition spaceRunes : list string :=
  map (fun n => str1 (chr n)) [9; 10; 11; 12; 13; 32] ++
  [str2 194 133; str2 194 160; str3 225 154 128] ++
  map (fun k => str3 226 128 (128 + k)) (seq 0 11) ++
  [str3 226 128 168; str3 226 128 169; str3 226 128 175; str3 226 129 159;
   str3 227 128 128].

Definition isSpaceRune (r : string) : bool := existsb (String.eqb r) spaceRunes.

(** strings.TrimLeftFunc(s, unicode.IsSpace), through indexFunc. *)
Fixpoint trimLeft (fuel : nat) (s : string) : string :=
  match fuel with
  | O => s
  | S fuel' =>
      match s with
      | EmptyString => EmptyString
      | String c s' =>
          let '(size, valid) := decodeRune c s' in
          if valid && isSpaceRune (String.substring 0 size s)
          then trimLeft fuel' (String.substring size (String.length s - size) s)
          else s
      end
  end.

(** lastIndexFunc(s, unicode.IsSpace, false): the index of the last rune
    of [s] that is not white space, read back with DecodeLastRuneInString;
    [None] for -1. *)
Fixpoint lastNonSpace (fuel : nat) (s : string) : option nat :=
  match fuel with
  | O => None
  | S fuel' =>
      if String.eqb s "" then None else
      let '(size, valid) := decodeLastRune s in
      let i := String.length s - size in
      if valid && isSpaceRune (String.substring i size s)
      then lastNonSpace fuel' (String.substring 0 i s)
      else Some i
  end.

(** strings.TrimRightFunc(s, unicode.IsSpace) *)
Definition trimRight (s : string) : string :=
  match lastNonSpace (String.length s) s with
  | None => ""
  | Some i =>
      let wid :=
        match String.get i s with
        | Some c =>
            if Nat.ltb (nat_of_ascii c) 128 then 1
            else fst (decodeRune c (String.substring (S i) (String.length s - S i) s))
        | None => 1
        end in
      String.substring 0 (i + wid) s
  end.

(** strings.TrimSpace: TrimFunc(s, unicode.IsSpace), that is
    TrimRightFunc(TrimLeftFunc(s, ..), ..). *)
Definition TrimSpace (s : string) : string :=
  trimRight (trimLeft (String.length s) s).

Definition backslash : ascii := chr 92.
Definition dquote : ascii := chr 34.
Definition squote : ascii := chr 39.
Definition bquote : ascii := chr 96.

(** shellwords' isSpace, on a rune *)
Definition isSpace (r : string) : bool :=
  String.eqb r (str1 (chr 32)) || String.eqb r (str1 (chr 9)) ||
  String.eqb r (str1 (chr 13)) || String.eqb r (str1 (chr 10)).

(** The loop's variables; [backtick] is only read when backquote
    expansion is on, so it is left out. *)
Record pstate := mkP {
  p_args : list string;
  p_buf : string;
  p_escaped : bool;
  p_doubleQuoted : bool;
  p_singleQuoted : bool;
  p_backQuote : bool
}.

(** One iteration of the loop of Parse on the rune [r] (as string(r)). *)
Definition pstep (st : pstate) (r : string) : pstate :=
  let '(mkP args buf escaped dq sq bq) := st in
  let addr := (buf +:+ r) in
  if escaped then mkP args addr false dq sq bq
  else if String.eqb r (str1 backslash) then
    (if sq then mkP args addr escaped dq sq bq else mkP args buf true dq sq bq)
  else if isSpace r then
    (if sq || dq || bq then mkP args addr escaped dq sq bq
     else if negb (String.eqb buf "") then mkP (app args [buf]) "" escaped dq sq bq
     else st)
  else if String.eqb r (str1 bquote) then
    (if negb sq && negb dq then mkP args addr escaped dq sq (negb bq)
     else mkP args addr escaped dq sq bq)
  else if String.eqb r (str1 dquote) then
    (if negb sq then mkP args buf escaped (negb dq) sq bq
     else mkP args addr escaped dq sq bq)
  else if String.eqb r (str1 squote) then
    (if negb dq then mkP args buf escaped dq (negb sq) bq
     else mkP args addr escaped dq sq bq)
  else mkP args addr escaped dq sq bq.

Fixpoint parseLoop (rs : list string) (st : pstate) : pstate :=
  match rs with
  | [] => st
  | r :: rs' => parseLoop rs' (pstep st r)
  end.

Definition Parse (line : string) : result (list string) :=
  let line := TrimSpace line in
  let st := parseLoop (runes (String.length line) line)
                      (mkP [] "" false false false false) in
  let args := if String.eqb (p_buf st) "" then p_args st
              else app (p_args st) [p_buf st] in
  if p_escaped st || p_singleQuoted st || p_doubleQuoted st || p_backQuote st
  then Err (GoErr "invalid command line string")
  else Ok args.

(* ------------------------------------------------------------------ *)
(** * Task definitions: taskDefinitionInput and taskDefinitionToProcess *)

Record KeyValuePair := { kv_Name : option string; kv_Value : option string }.

Record PortMapping := { pmap_HostPort : option Z; pmap_ContainerPort : option Z }.

Record ContainerDefinition := {
  cd_Name : option string;
  cd_Cpu : Z;                          (* dereferenced by the code *)
  cd_Command : list string;            (* elements dereferenced *)
  cd_Image : option string;
  cd_Essential : option bool;
  cd_Memory : Z;                       (* dereferenced by the code *)
  cd_Environment : list (option KeyValuePair);
  cd_PortMappings : list PortMapping
}.

Record RegisterTaskDefinitionInput := {
  rtd_Family : option string;
  rtd_ContainerDefinitions : list ContainerDefinition
}.

Record TaskDefinition := {
  td_Family : option string;
  td_TaskDefinitionArn : option string;
  td_ContainerDefinitions : list ContainerDefinition
}.

Definition safeString (s : option string) : string :=
  match s with None => "" | Some s => s end.

Definition taskDefinitionInput (p : Process) : result RegisterTaskDefinitionInput :=
  match Parse (Command p) with
  | Err e => Err e
  | Ok args =>
      let command := args in
      let environment :=
        map (fun kv : string * string =>
               Some {| kv_Name := Some kv.1; kv_Value := Some kv.2 |})
            (map_to_list (Env p)) in
      let ports :=
        map (fun m => {| pmap_HostPort := Host m; pmap_ContainerPort := Container m |})
            (Ports p) in
      Ok {| rtd_Family := Some (Type_ p);
            rtd_ContainerDefinitions :=
              [{| cd_Name := Some (Type_ p);
                  cd_Cpu := to_int64 (CPUShares p);
                  cd_Command := command;
                  cd_Image := Some (Image p);
                  cd_Essential := Some true;
                  cd_Memory := to_int64 (MemoryLimit p / MB);
                  cd_Environment := environment;
                  cd_PortMappings := ports |}] |}
  end.

Definition taskDefinitionToProcess (td : TaskDefinition) : result Process :=
  match td_ContainerDefinitions td with
  | [] => Err (GoErr "task definition had no container definitions")
  | container :: _ =>
      let command := cd_Command container in
      let env :=
        foldl (fun env kvp =>
                 match kvp with
                 | Some kvp => <[safeString (kv_Name kvp) := safeString (kv_Value kvp)]> env
                 | None => env
                 end) (∅ : gmap string string) (cd_Environment container) in
      Ok {| Type_ := safeString (cd_Name container);
            Command := String.concat " " command;
            Env := env;
            Image := "";
            CPUShares := to_uint (cd_Cpu container);
            MemoryLimit := to_uint (to_uint (cd_Memory container) * MB);
            Instances := 0;
            Ports := [];
            LoadBalancer := "" |}
  end.

(** The task definition ECS stores for a registration: the family and the
    container definitions as they were registered. *)
Definition registered (i : RegisterTaskDefinitionInput) (arn : option string)
  : TaskDefinition :=
  {| td_Family := rtd_Family i; td_TaskDefinitionArn := arn;
     td_ContainerDefinitions := rtd_ContainerDefinitions i |}.

(** A word with no white space, quote, backslash or backquote: printable
    ASCII other than those. *)
Definition plainChar (c : ascii) : bool :=
  let n := nat_of_ascii c in
  Nat.leb 33 n && Nat.leb n 126 && negb (Nat.eqb n 34) && negb (Nat.eqb n 39) &&
  negb (Nat.eqb n 92) && negb (Nat.eqb n 96).

Fixpoint allPlain (s : string) : bool :=
  match s with
  | EmptyString => true
  | String c s' => plainChar c && allPlain s'
  end.

Definition plainWord (w : string) : Prop := w <> "" /\ allPlain w = true.

(* ------------------------------------------------------------------ *)
(** * The ELB load-balancer manager (pkg/lb/elb.go) *)

Definition schemeInternal : string := "internal".
Definition schemeExternal : string := "internet-facing".
Definition defaultConnectionDrainingTimeout : Z := 30.

(** elb.Listener; a ListenerDescription is read only through its
    Listener, so descriptions carry their listeners directly. *)
Record Listener := {
  l_InstancePort : Z;
  l_LoadBalancerPort : Z;
  l_Protocol : string;
  l_InstanceProtocol : string;
  l_SSLCertificateId : option string
}.

Record Tag := { Key : string; Value : string }.

Record CreateLoadBalancerInput := {
  clb_Listeners : list Listener;
  clb_LoadBalancerName : string;
  clb_Scheme : string;
  clb_SecurityGroups : list string;
  clb_Subnets : list string;
  clb_Tags : list Tag
}.

Record ModifyLoadBalancerAttributesInput := {
  mla_ConnectionDrainingEnabled : bool;
  mla_ConnectionDrainingTimeout : Z;
  mla_CrossZoneLoadBalancingEnabled : bool;
  mla_LoadBalancerName : string
}.

Record LoadBalancerDescription := {
  d_LoadBalancerName : string;
  d_DNSName : string;
  d_Scheme : string;
  d_ListenerDescriptions : list Listener
}.

Record DescribeLoadBalancersInput := {
  dlb_Marker : option string;
  dlb_PageSize : Z
}.

Record DescribeLoadBalancersOutput := {
  LoadBalancerDescriptions : list LoadBalancerDescription;
  NextMarker : option string
}.

Record TagDescription := {
  tdesc_LoadBalancerName : string;
  tdesc_Tags : list Tag
}.

Record CreateLoadBalancerOpts := {
  o_External : bool;
  o_InstancePort : Z;
  o_SSLCert : string;
  o_Tags : gmap string string
}.

(** lb.LoadBalancer *)
Record LoadBalancer_ := {
  lb_Name : string;
  lb_DNSName : string;
  lb_External : bool;
  lb_SSLCert : string;
  lb_InstancePort : Z;
  lb_Tags : gmap string string
}.

(** Calls made on the ELB client. *)
Inductive elb_call :=
| ELBCreateLoadBalancer (input : CreateLoadBalancerInput)
| ELBModifyLoadBalancerAttributes (input : ModifyLoadBalancerAttributesInput)
| ELBDescribeLoadBalancers (input : DescribeLoadBalancersInput)
| ELBDescribeTags (names : list string).

Definition elbListeners (port : Z) (certID : string) : list Listener :=
  let listeners :=
    [{| l_InstancePort := port; l_LoadBalancerPort := 80; l_Protocol := "http";
        l_InstanceProtocol := "http"; l_SSLCertificateId := None |}] in
  if negb (String.eqb certID "") then
    app listeners
      [{| l_InstancePort := port; l_LoadBalancerPort := 443;
          l_SSLCertificateId := Some certID; l_Protocol := "https";
          l_InstanceProtocol := "http" |}]
  else listeners.

Definition elbTag (k v : string) : Tag := {| Key := k; Value := v |}.

Definition elbTags (tags : gmap string string) : list Tag :=
  map (fun kv : string * string => elbTag kv.1 kv.2) (map_to_list tags).

Definition mapTags (tags : list Tag) : gmap string string :=
  foldl (fun m t => <[Key t := Value t]> m) ∅ tags.

Definition containsTag (t : Tag) (tags : list Tag) : bool :=
  existsb (fun t2 => String.eqb (Key t) (Key t2) && String.eqb (Value t) (Value t2)) tags.

(** containsTags ensures that b contains all of the tags in a. *)
Definition containsTags (a : gmap string string) (b : list Tag) : bool :=
  forallb (fun kv : string * string => containsTag (elbTag kv.1 kv.2) b) (map_to_list a).

Definition internalSubnets (m : ELBManager) : list string := elb_InternalSubnetIDs m.
Definition externalSubnets (m : ELBManager) : list string := elb_ExternalSubnetIDs m.

Definition createInput (m : ELBManager) (o : CreateLoadBalancerOpts) (name : string)
  : CreateLoadBalancerInput :=
  let '(scheme, sg, subnets) :=
    if o_External o
    then (schemeExternal, elb_ExternalSecurityGroupID m, externalSubnets m)
    else (schemeInternal, elb_InternalSecurityGroupID m, internalSubnets m) in
  {| clb_Listeners := elbListeners (o_InstancePort o) (o_SSLCert o);
     clb_LoadBalancerName := name;
     clb_Scheme := scheme;
     clb_SecurityGroups := [sg];
     clb_Subnets := subnets;
     clb_Tags := elbTags (o_Tags o) |}.

Definition attributesInput (name : string) : ModifyLoadBalancerAttributesInput :=
  {| mla_ConnectionDrainingEnabled := true;
     mla_ConnectionDrainingTimeout := defaultConnectionDrainingTimeout;
     mla_CrossZoneLoadBalancingEnabled := true;
     mla_LoadBalancerName := name |}.

(** The ListenerDescriptions of a load balancer give its instance port (the
    first listener's) and its certificate (the last one set). *)
Definition lbOfDescription (elb : LoadBalancerDescription) (tags : list Tag)
  : LoadBalancer_ :=
  let '(instancePort, sslCert) :=
    match d_ListenerDescriptions elb with
    | [] => (0%Z, "")
    | l0 :: _ =>
        (l_InstancePort l0,
         foldl (fun cert ld => match l_SSLCertificateId ld with
                               | Some c => c
                               | None => cert
                               end) "" (d_ListenerDescriptions elb))
    end in
  {| lb_Name := d_LoadBalancerName elb;
     lb_DNSName := d_DNSName elb;
     lb_External := String.eqb (d_Scheme elb) schemeExternal;
     lb_SSLCert := sslCert;
     lb_InstancePort := instancePort;
     lb_Tags := mapTags tags |}.

(** The loop over out2.TagDescriptions; [None] when a tag description
    names a load balancer absent from the page (descs[...] is then a nil
    pointer, dereferenced). *)
Fixpoint appendMatching (tags : gmap string string)
    (descs : gmap string LoadBalancerDescription) (tds : list TagDescription)
    (lbs : list LoadBalancer_) : option (list LoadBalancer_) :=
  match tds with
  | [] => Some lbs
  | d :: tds' =>
      if containsTags tags (tdesc_Tags d) then
        match descs !! tdesc_LoadBalancerName d with
        | Some elb => appendMatching tags descs tds' (app lbs [lbOfDescription elb (tdesc_Tags d)])
        | None => None
        end
      else appendMatching tags descs tds' lbs
  end.

Section ELB.

Variable W : Type.
(** uuid-based name generation draws from the world. *)
Variable newName : W -> W * string.
Variable elb_CreateLoadBalancer : W -> CreateLoadBalancerInput -> W * result string.
Variable elb_ModifyLoadBalancerAttributes :
  W -> ModifyLoadBalancerAttributesInput -> W * option error.
Variable elb_DescribeLoadBalancers :
  W -> DescribeLoadBalancersInput -> result DescribeLoadBalancersOutput.
Variable elb_DescribeTags : W -> list string -> result (list TagDescription).

(** A read-only call. *)
Definition read {A} (ev : elb_call) (f : W -> A) : M W elb_call A :=
  call ev (fun w => (w, f w)).

Definition CreateLoadBalancer (m : ELBManager) (o : CreateLoadBalancerOpts)
  : M W elb_call (option LoadBalancer_ * option error) :=
  name <- (fun w => let '(w', n) := newName w in (w', [], n)) ;;
  let input := createInput m o name in
  out <- call (ELBCreateLoadBalancer input) (fun w => elb_CreateLoadBalancer w input) ;;
  match out with
  | Err e => ret (None, Some e)
  | Ok dnsName =>
      let ainput := attributesInput name in
      err <- call (ELBModifyLoadBalancerAttributes ainput)
                  (fun w => elb_ModifyLoadBalancerAttributes w ainput) ;;
      match err with
      | Some e => ret (None, Some e)
      | None =>
          ret (Some {| lb_Name := name; lb_DNSName := dnsName;
                       lb_External := o_External o; lb_SSLCert := o_SSLCert o;
                       lb_InstancePort := o_InstancePort o; lb_Tags := ∅ |}, None)
      end
  end.

Definition pageInput (nextMarker : option string) : DescribeLoadBalancersInput :=
  {| dlb_Marker := nextMarker; dlb_PageSize := 20 |}.

(** The `for { ... }` loop of LoadBalancers, run for at most [fuel]
    iterations; [None] when the fuel runs out or the code dereferences a
    nil pointer. *)
Fixpoint lbLoop (fuel : nat) (tags : gmap string string)
    (nextMarker : option string) (lbs : list LoadBalancer_)
  : M W elb_call (option (list LoadBalancer_ * option error)) :=
  match fuel with
  | O => ret None
  | S fuel' =>
      let input := pageInput nextMarker in
      out <- read (ELBDescribeLoadBalancers input)
                  (fun w => elb_DescribeLoadBalancers w input) ;;
      match out with
      | Err e => ret (Some ([], Some e))
      | Ok out =>
          if Nat.eqb (length (LoadBalancerDescriptions out)) 0
          then ret (Some (lbs, None)) else
          let names := map d_LoadBalancerName (LoadBalancerDescriptions out) in
          let descs := foldl (fun m d => <[d_LoadBalancerName d := d]> m) ∅
                             (LoadBalancerDescriptions out) in
          out2 <- read (ELBDescribeTags names) (fun w => elb_DescribeTags w names) ;;
          match out2 with
          | Err e => ret (Some (lbs, Some e))
          | Ok tds =>
              match appendMatching tags descs tds lbs with
              | None => ret None
              | Some lbs =>
                  match NextMarker out with
                  | None => ret (Some (lbs, None))
                  | Some m =>
                      if String.eqb m "" then ret (Some (lbs, None))
                      else lbLoop fuel' tags (NextMarker out) lbs
                  end
              end
          end
      end
  end.

Definition LoadBalancers (fuel : nat) (tags : gmap string string)
  : M W elb_call (option (list LoadBalancer_ * option error)) :=
  lbLoop fuel tags None [].

End ELB.

(** ** Pages of DescribeLoadBalancers *)

Definition page_names (out : DescribeLoadBalancersOutput) : list string :=
  map d_LoadBalancerName (LoadBalancerDescriptions out).

Definition page_descs (out : DescribeLoadBalancersOutput)
  : gmap string LoadBalancerDescription :=
  foldl (fun m d => <[d_LoadBalancerName d := d]> m) ∅ (LoadBalancerDescriptions out).

(** A continuation marker that signals the last page: absent or empty. *)
Definition markerDone (mo : option string) : bool :=
  match mo with
  | None => true
  | Some m => String.eqb m ""
  end.

(** [fetched_pages dlb w marker outs]: starting from [marker], the backend
    answers with the pages [outs], where a further page is requested after
    a non-empty page whose continuation marker is present and non-empty,
    and the chain ends on an empty page or on a page whose marker is absent
    or empty. *)
Inductive fetched_pages {W : Type}
    (dlb : W -> DescribeLoadBalancersInput -> result DescribeLoadBalancersOutput)
    (w : W) : option string -> list DescribeLoadBalancersOutput -> Prop :=
| fetched_empty marker out :
    dlb w (pageInput marker) = Ok out ->
    LoadBalancerDescriptions out = [] ->
    fetched_pages dlb w marker [out]
| fetched_last marker out :
    dlb w (pageInput marker) = Ok out ->
    LoadBalancerDescriptions out <> [] ->
    markerDone (NextMarker out) = true ->
    fetched_pages dlb w marker [out]
| fetched_more marker out outs :
    dlb w (pageInput marker) = Ok out ->
    LoadBalancerDescriptions out <> [] ->
    markerDone (NextMarker out) = false ->
    fetched_pages dlb w (NextMarker out) outs ->
    fetched_pages dlb w marker (out :: outs).

(** The calls made while fetching [outs] from [marker]: one page request
    with the previous page's marker, then the tag request of a non-empty
    page. *)
Fixpoint pages_log (marker : option string) (outs : list DescribeLoadBalancersOutput)
  : list elb_call :=
  match outs with
  | [] => []
  | out :: outs' =>
      ELBDescribeLoadBalancers (pageInput marker) ::
      app (match LoadBalancerDescriptions out with
           | [] => []
           | _ => [ELBDescribeTags (page_names out)]
           end)
          (pages_log (NextMarker out) outs')
  end.

(** [r] is what the page [out] contributes to the result. *)
Definition page_contrib {W : Type}
    (dtags : W -> list string -> result (list TagDescription)) (w : W)
    (tags : gmap string string) (out : DescribeLoadBalancersOutput)
    (r : list LoadBalancer_) : Prop :=
  (LoadBalancerDescriptions out = [] /\ r = []) \/
  (LoadBalancerDescriptions out <> [] /\
   exists tds, dtags w (page_names out) = Ok tds /\
               appendMatching tags (page_descs out) tds [] = Some r).


(* ------------------------------------------------------------------ *)
(** * Scheduler.Remove over the ProcessManager interface (ecs.go) *)

Section SchedulerRemove.

Variable S : Type.
Variable pm_Processes : S -> string -> S * (list Process * option error).
Variable pm_RemoveProcess : S -> string -> string -> S * option error.

(** for t, _ := range processTypes(processes) { if err := m.RemoveProcess(..); err != nil { return err } } *)
Definition Remove (appID : string) : M S pm_call (option error) :=
  r <- listProcesses S pm_Processes appID ;;
  match r with
  | (_, Some e) => ret (Some e)
  | (processes, None) =>
      removeAll S pm_RemoveProcess appID (map fst (map_to_list (processTypes processes)))
  end.

End SchedulerRemove.

(** A run of calls [f] on the elements of [xs], in order, from state [s]
    to state [s'], in which every call returns no error. *)
Inductive steps_ok {S X : Type} (f : S -> X -> S * option error)
  : S -> list X -> S -> Prop :=
| steps_nil s : steps_ok f s [] s
| steps_cons s x xs s1 s' :
    f s x = (s1, None) -> steps_ok f s1 xs s' -> steps_ok f s (x :: xs) s'.

(** The outcome of a loop `for _, x := range xs { if err := f(x); err !=
    nil { return err } }` run from state [s] that ends in state [s'],
    having called [f] on [called] and returned [r]: either every call
    succeeds, or the calls on a prefix [pre] succeed, the call on the next
    element [x] fails, and its error is returned with no later call. *)
Definition loop_outcome {S X : Type} (f : S -> X -> S * option error)
    (s : S) (xs : list X) (s' : S) (called : list X) (r : option error) : Prop :=
  (r = None /\ called = xs /\ steps_ok f s xs s') \/
  (exists pre x post s_k e,
     xs = app pre (x :: post) /\ called = app pre [x] /\
     steps_ok f s pre s_k /\ f s_k x = (s', Some e) /\ r = Some e).

(* ------------------------------------------------------------------ *)
(** * ecsProcessManager over the ECS client (ecs.go) *)

(** ecs.Service, as far as the code reads it. *)
Record Service := {
  srv_ServiceName : option string;
  srv_TaskDefinition : option string
}.

(** ecs.LoadBalancer *)
Record EcsLoadBalancer := {
  elbc_ContainerName : option string;
  elbc_ContainerPort : option Z;
  elbc_LoadBalancerName : option string
}.

Record CreateServiceInput := {
  csi_Cluster : option string;
  csi_DesiredCount : option Z;
  csi_ServiceName : option string;
  csi_TaskDefinition : option string;
  csi_LoadBalancers : list EcsLoadBalancer;
  csi_Role : option string
}.

(** ecs.Task; TaskArn is dereferenced by the code. *)
Record Task := {
  task_TaskArn : string;
  task_TaskDefinitionArn : option string;
  task_LastStatus : option string
}.

(** scheduler.Instance; UpdatedAt is the time read from the clock. *)
Record Instance := {
  inst_Process : Process;
  inst_State : string;
  inst_ID : string;
  inst_UpdatedAt : Z
}.

(** Calls made on the ECS client (ecsutil.Client) by the process manager
    and the scheduler. *)
Inductive ecs_req :=
| ReqRegisterAppTaskDefinition (app : string) (input : RegisterTaskDefinitionInput)
| ReqUpdateAppService (app : string) (input : UpdateServiceInput)
| ReqCreateAppService (app : string) (input : CreateServiceInput)
| ReqListAppServices (app : string) (cluster : option string)
| ReqDescribeServices (cluster : option string) (services : list string)
| ReqDescribeTaskDefinition (taskDefinition : option string)
| ReqListAppTasks (app : string) (cluster : option string)
| ReqDescribeTasks (cluster : option string) (tasks : list string).

(** The input of updateService. *)
Definition updateInput (m : ecsProcessManager) (p : Process) : UpdateServiceInput :=
  {| usi_Cluster := Some (cluster m); usi_DesiredCount := Some (to_int64 (Instances p));
     usi_Service := Some (Type_ p); usi_TaskDefinition := Some (Type_ p) |}.

(** The input of createService; [None] when the code indexes p.Ports[0]
    of a process without ports (an index-out-of-range panic). *)
Definition createServiceInput (m : ecsProcessManager) (p : Process)
  : option CreateServiceInput :=
  let lbs_role :=
    if negb (String.eqb (LoadBalancer p) "") then
      match Ports p with
      | [] => None
      | pm0 :: _ =>
          Some ([{| elbc_ContainerName := Some (Type_ p);
                    elbc_ContainerPort := Container pm0;
                    elbc_LoadBalancerName := Some (LoadBalancer p) |}],
                Some (serviceRole m))
      end
    else Some ([], None) in
  match lbs_role with
  | None => None
  | Some (loadBalancers, role) =>
      Some {| csi_Cluster := Some (cluster m);
              csi_DesiredCount := Some (to_int64 (Instances p));
              csi_ServiceName := Some (Type_ p);
              csi_TaskDefinition := Some (Type_ p);
              csi_LoadBalancers := loadBalancers;
              csi_Role := role |}
  end.

Section EcsClient.

(** The ECS backend over a world [E].  Registering, updating and creating
    change the world; the listing and describing calls only read it.  The
    response of a register call is not read by CreateProcess, only its
    error. *)
Variable E : Type.
Variable ecs_RegisterAppTaskDefinition :
  E -> string -> RegisterTaskDefinitionInput -> E * option error.
Variable ecs_UpdateAppService :
  E -> string -> UpdateServiceInput -> E * (option Service * option error).
Variable ecs_CreateAppService :
  E -> string -> CreateServiceInput -> E * (option Service * option error).
Variable ecs_ListAppServices : E -> string -> option string -> result (list string).
Variable ecs_DescribeServices : E -> option string -> list string -> result (list Service).
Variable ecs_DescribeTaskDefinition : E -> option string -> result TaskDefinition.
Variable ecs_ListAppTasks : E -> string -> option string -> result (list string).
Variable ecs_DescribeTasks : E -> option string -> list string -> list Task * option error.
(** arn.ResourceID (pkg/arn) and timex.Now; reading the clock is a step
    of the world. *)
Variable ResourceID : string -> result string.
Variable Now : E -> E * Z.

Definition ecs_read {A} (ev : ecs_req) (f : E -> A) : M E ecs_req A :=
  call ev (fun e => (e, f e)).

Definition createTaskDefinition (app : App) (p : Process) : M E ecs_req (option error) :=
  match taskDefinitionInput p with
  | Err e => ret (Some e)
  | Ok taskDef =>
      call (ReqRegisterAppTaskDefinition (ID app) taskDef)
           (fun e => ecs_RegisterAppTaskDefinition e (ID app) taskDef)
  end.

(** [None] is the panic of createServiceInput. *)
Definition createService (m : ecsProcessManager) (app : App) (p : Process)
  : M E ecs_req (option (option Service * option error)) :=
  match createServiceInput m p with
  | None => ret None
  | Some input =>
      r <- call (ReqCreateAppService (ID app) input)
                (fun e => ecs_CreateAppService e (ID app) input) ;;
      ret (Some r)
  end.

Definition updateService (m : ecsProcessManager) (app : App) (p : Process)
  : M E ecs_req (option Service * option error) :=
  let input := updateInput m p in
  r <- call (ReqUpdateAppService (ID app) input)
            (fun e => ecs_UpdateAppService e (ID app) input) ;;
  let '(s, err) := r in
  if noService err then ret (None, None) else ret (s, err).

Definition updateCreateService (m : ecsProcessManager) (app : App) (p : Process)
  : M E ecs_req (option (option Service * option error)) :=
  r <- updateService m app p ;;
  match r with
  | (_, Some e) => ret (Some (None, Some e))
  | (Some s, None) => ret (Some (Some s, None))
  | (None, None) => createService m app p
  end.

(** ecsProcessManager.CreateProcess; [None] is a panic. *)
Definition ecsCreateProcess (m : ecsProcessManager) (app : App) (p : Process)
  : M E ecs_req (option (option error)) :=
  err <- createTaskDefinition app p ;;
  match err with
  | Some e => ret (Some (Some e))
  | None =>
      r <- updateCreateService m app p ;;
      ret (option_map snd r)
  end.

(** The loop over desc.Services of ecsProcessManager.Processes. *)
Fixpoint describeServices (services : list Service) (processes : list Process)
  : M E ecs_req (list Process * option error) :=
  match services with
  | [] => ret (processes, None)
  | s :: ss =>
      resp <- ecs_read (ReqDescribeTaskDefinition (srv_TaskDefinition s))
                       (fun e => ecs_DescribeTaskDefinition e (srv_TaskDefinition s)) ;;
      match resp with
      | Err e => ret (processes, Some e)
      | Ok td =>
          match taskDefinitionToProcess td with
          | Err e => ret (processes, Some e)
          | Ok p => describeServices ss (app processes [p])
          end
      end
  end.

(** ecsProcessManager.Processes *)
Definition ecsProcesses (m : ecsProcessManager) (appID : string)
  : M E ecs_req (list Process * option error) :=
  let cl := Some (cluster m) in
  list <- ecs_read (ReqListAppServices appID cl)
                   (fun e => ecs_ListAppServices e appID cl) ;;
  match list with
  | Err e => ret ([], Some e)
  | Ok arns =>
      if Nat.eqb (length arns) 0 then ret ([], None) else
      desc <- ecs_read (ReqDescribeServices cl arns)
                       (fun e => ecs_DescribeServices e cl arns) ;;
      match desc with
      | Err e => ret ([], Some e)
      | Ok services => describeServices services []
      end
  end.

(** Scheduler.describeAppTasks, for the scheduler's cluster [cl]. *)
Definition describeAppTasks (cl appID : string) : M E ecs_req (list Task * option error) :=
  resp <- ecs_read (ReqListAppTasks appID (Some cl))
                   (fun e => ecs_ListAppTasks e appID (Some cl)) ;;
  match resp with
  | Err e => ret ([], Some e)
  | Ok arns =>
      if Nat.eqb (length arns) 0 then ret ([], None) else
      ecs_read (ReqDescribeTasks (Some cl) arns) (fun e => ecs_DescribeTasks e (Some cl) arns)
  end.

(** The loop over the tasks of Scheduler.Instances. *)
Fixpoint instancesOf (tasks : list Task) (instances : list Instance)
  : M E ecs_req (list Instance * option error) :=
  match tasks with
  | [] => ret (instances, None)
  | t :: ts =>
      resp <- ecs_read (ReqDescribeTaskDefinition (task_TaskDefinitionArn t))
                       (fun e => ecs_DescribeTaskDefinition e (task_TaskDefinitionArn t)) ;;
      match resp with
      | Err e => ret (instances, Some e)
      | Ok td =>
          match ResourceID (task_TaskArn t) with
          | Err e => ret (instances, Some e)
          | Ok id =>
              match taskDefinitionToProcess td with
              | Err e => ret (instances, Some e)
              | Ok p =>
                  now <- (fun e => let '(e', t) := Now e in (e', [], t)) ;;
                  instancesOf ts (app instances
                    [{| inst_Process := p; inst_State := safeString (task_LastStatus t);
                        inst_ID := id; inst_UpdatedAt := now |}])
              end
          end
      end
  end.

(** Scheduler.Instances *)
Definition SchedulerInstances (cl appID : string)
  : M E ecs_req (list Instance * option error) :=
  r <- describeAppTasks cl appID ;;
  match r with
  | (_, Some e) => ret ([], Some e)
  | (tasks, None) => instancesOf tasks []
  end.

End EcsClient.

(** [n] successive readings of the clock [Now], starting in world [w]:
    the world after the last reading and the times read, in order. *)
Fixpoint clockReads {E : Type} (Now : E -> E * Z) (n : nat) (w : E) : E * list Z :=
  match n with
  | O => (w, [])
  | S n' =>
      let '(w1, t) := Now w in
      let '(w2, ts) := clockReads Now n' w1 in
      (w2, t :: ts)
  end.

(* ------------------------------------------------------------------ *)
(** * newName and the read-back of a created ELB *)

(** strings.Replace(s, old, new, -1) for a non-empty [old]: the
    occurrences of [old] are replaced from left to right without overlap;
    each step consumes at least one byte, so [fuel] = length s suffices. *)
Fixpoint replaceFrom (fuel : nat) (old new s : string) : string :=
  match fuel with
  | O => s
  | S fuel' =>
      match s with
      | EmptyString => EmptyString
      | String c s' =>
          if String.prefix old s
          then new +:+ replaceFrom fuel' old new
                         (String.substring (String.length old) (String.length s) s)
          else String c (replaceFrom fuel' old new s')
      end
  end.

(** strings.Replace(s, old, new, -1); for an empty [old], Go inserts [new]
    before every rune and at the end, modelled here byte by byte (the runes
    of an ASCII string). *)
Definition stringsReplaceAll (s old new : string) : string :=
  if String.eqb old "" then
    new +:+ String.concat "" (map (fun c => String c new) (String.list_ascii_of_string s))
  else replaceFrom (String.length s) old new s.

(** newName, applied to the value of uuid.New(). *)
Definition newName (uuid : string) : string := stringsReplaceAll uuid "-" "".

(** The ELB's description of the load balancer created from [i], as the
    backend reports it: the name, scheme and listeners of the create call
    and the DNS name the create call returned. *)
Definition describedAs (i : CreateLoadBalancerInput) (dnsName : string)
  : LoadBalancerDescription :=
  {| d_LoadBalancerName := clb_LoadBalancerName i; d_DNSName := dnsName;
     d_Scheme := clb_Scheme i; d_ListenerDescriptions := clb_Listeners i |}.

(** [page_chain dlb w marker outs marker']: from [marker], the backend
    answers with the non-empty pages [outs], each with a marker that is
    neither absent nor empty, the last one leading to [marker']. *)
Inductive page_chain {W : Type}
    (dlb : W -> DescribeLoadBalancersInput -> result DescribeLoadBalancersOutput)
    (w : W) : option string -> list DescribeLoadBalancersOutput -> option string -> Prop :=
| chain_nil marker : page_chain dlb w marker [] marker
| chain_cons marker out outs marker' :
    dlb w (pageInput marker) = Ok out ->
    LoadBalancerDescriptions out <> [] ->
    markerDone (NextMarker out) = false ->
    page_chain dlb w (NextMarker out) outs marker' ->
    page_chain dlb w marker (out :: outs) marker'.

(* ------------------------------------------------------------------ *)
(** * Concrete inputs *)

(** DescribeTags's answer for [names] when each load balancer [n] carries
    the tags [tagsOf n]. *)
Definition tagDescOf (tagsOf : string -> list Tag) (n : string) : TagDescription :=
  {| tdesc_LoadBalancerName := n; tdesc_Tags := tagsOf n |}.

(** A process whose command has two spaces between its words. *)
Definition two_space_process : Process :=
  {| Type_ := "web"; Command := "a  b"; Env := ∅; Image := "img"; CPUShares := 0;
     MemoryLimit := 0; Instances := 1; Ports := []; LoadBalancer := "" |}.

(** A process with a command of plain words and a memory limit that is
    not a whole number of megabytes. *)
Definition web_process : Process :=
  {| Type_ := "web"; Command := "acme-web --port 8080";
     Env := <["PORT" := "8080"]> (<["ENV" := "prod"]> ∅); Image := "acme/web:v1";
     CPUShares := 512; MemoryLimit := (3 * MB + 5)%Z; Instances := 2;
     Ports := []; LoadBalancer := "" |}.

(** A backend whose attribute update fails after a successful create. *)
Definition failing_attrs_manager : ELBManager :=
  {| elb_InternalSecurityGroupID := "sg-int"; elb_ExternalSecurityGroupID := "sg-ext";
     elb_InternalSubnetIDs := ["subnet-a"]; elb_ExternalSubnetIDs := ["subnet-b"] |}.

Definition failing_attrs_opts : CreateLoadBalancerOpts :=
  {| o_External := true; o_InstancePort := 9000; o_SSLCert := "";
     o_Tags := <["AppID" := "acme"]> ∅ |}.

(** A load balancer description named [n] with listeners [ls]. *)
Definition lbDesc (n : string) (ls : list Listener) : LoadBalancerDescription :=
  {| d_LoadBalancerName := n; d_DNSName := n +:+ ".elb.amazonaws.com";
     d_Scheme := schemeExternal; d_ListenerDescriptions := ls |}.

Definition http_listener : Listener :=
  {| l_InstancePort := 9000; l_LoadBalancerPort := 80; l_Protocol := "http";
     l_InstanceProtocol := "http"; l_SSLCertificateId := None |}.

(** A backend with two pages: load balancers a and b, then c. *)
Definition example_page1 : DescribeLoadBalancersOutput :=
  {| LoadBalancerDescriptions := [lbDesc "a" [http_listener]; lbDesc "b" []];
     NextMarker := Some "page2" |}.

Definition example_page2 : DescribeLoadBalancersOutput :=
  {| LoadBalancerDescriptions := [lbDesc "c" []]; NextMarker := None |}.

Definition example_dlb (_ : unit) (i : DescribeLoadBalancersInput)
  : result DescribeLoadBalancersOutput :=
  match dlb_Marker i with
  | None => Ok example_page1
  | Some _ => Ok example_page2
  end.

Definition example_tagsOf (n : string) : list Tag :=
  if String.eqb n "b" then [elbTag "AppID" "other"] else [elbTag "AppID" "acme"].

Definition example_dtags (_ : unit) (names : list string)
  : result (list TagDescription) :=
  Ok (map (tagDescOf example_tagsOf) names).

Definition example_filter : gmap string string := <["AppID" := "acme"]> ∅.

(** A backend whose first page is empty but carries a continuation marker
    to a second, non-empty page. *)
Definition gap_page1 : DescribeLoadBalancersOutput :=
  {| LoadBalancerDescriptions := []; NextMarker := Some "page2" |}.

Definition gap_dlb (_ : unit) (i : DescribeLoadBalancersInput)
  : result DescribeLoadBalancersOutput :=
  match dlb_Marker i with
  | None => Ok gap_page1
  | Some _ => Ok example_page2
  end.

(** A DescribeTags that fails on the second page of [example_dlb],
    whose only load balancer is c. *)
Definition failing_dtags (u : unit) (names : list string)
  : result (list TagDescription) :=
  if existsb (String.eqb "c") names
  then Err (AwsErr "Throttling" "Rate exceeded")
  else example_dtags u names.

(** The ECS side: a cluster with its service role, and processes behind a
    load balancer with and without a port mapping, and one whose command
    has an unterminated quote. *)
Definition example_ecs_manager : ecsProcessManager :=
  {| cluster := "empire"; serviceRole := "ecsServiceRole" |}.

Definition acme_app : App := {| ID := "acme"; Processes := [web_process] |}.

Definition lb_web_process : Process :=
  {| Type_ := "web"; Command := "acme-web"; Env := ∅; Image := "acme/web:v1";
     CPUShares := 256; MemoryLimit := MB; Instances := 1;
     Ports := [{| Host := Some 80%Z; Container := Some 8080%Z |}];
     LoadBalancer := "lb1" |}.

Definition lb_no_ports_process : Process :=
  {| Type_ := "web"; Command := "acme-web"; Env := ∅; Image := "acme/web:v1";
     CPUShares := 256; MemoryLimit := MB; Instances := 1; Ports := [];
     LoadBalancer := "lb1" |}.

Definition bad_quote_process : Process :=
  {| Type_ := "web"; Command := "echo 'oops"; Env := ∅; Image := "img";
     CPUShares := 0; MemoryLimit := 0; Instances := 1; Ports := [];
     LoadBalancer := "" |}.

Definition service_not_found : error := AwsErr "ServiceNotFoundException" "Service not found.".

Definition invalid_image : error := AwsErr "ClientException" "Invalid image".

(** Backends over a counter of the calls made. *)
Definition ok_register (w : nat) (_ : string) (_ : RegisterTaskDefinitionInput)
  : nat * option error := (S w, None).

Definition failing_register (w : nat) (_ : string) (_ : RegisterTaskDefinitionInput)
  : nat * option error := (S w, Some invalid_image).

Definition missing_update (w : nat) (_ : string) (_ : UpdateServiceInput)
  : nat * (option Service * option error) := (S w, (None, Some service_not_found)).

Definition found_update (w : nat) (_ : string) (i : UpdateServiceInput)
  : nat * (option Service * option error) :=
  (S w, (Some {| srv_ServiceName := usi_Service i;
                 srv_TaskDefinition := usi_TaskDefinition i |}, None)).

Definition ok_create (w : nat) (_ : string) (i : CreateServiceInput)
  : nat * (option Service * option error) :=
  (S w, (Some {| srv_ServiceName := csi_ServiceName i;
                 srv_TaskDefinition := csi_TaskDefinition i |}, None)).

(** A web container whose environment sets PORT twice, with a nil entry
    between, and a worker container. *)
Definition web_container : ContainerDefinition :=
  {| cd_Name := Some "web"; cd_Cpu := 512; cd_Command := ["acme-web"];
     cd_Image := Some "acme/web:v1"; cd_Essential := Some true; cd_Memory := 256;
     cd_Environment :=
       [Some {| kv_Name := Some "PORT"; kv_Value := Some "80" |}; None;
        Some {| kv_Name := Some "PORT"; kv_Value := Some "8080" |}];
     cd_PortMappings := [] |}.

Definition worker_container : ContainerDefinition :=
  {| cd_Name := Some "worker"; cd_Cpu := 256; cd_Command := ["acme-worker"];
     cd_Image := Some "acme/worker:v1"; cd_Essential := Some true; cd_Memory := 128;
     cd_Environment := []; cd_PortMappings := [] |}.

Definition web_td : TaskDefinition :=
  {| td_Family := Some "web"; td_TaskDefinitionArn := Some "arn:td/web:1";
     td_ContainerDefinitions := [web_container; worker_container] |}.

Definition worker_td : TaskDefinition :=
  {| td_Family := Some "worker"; td_TaskDefinitionArn := Some "arn:td/worker:1";
     td_ContainerDefinitions := [worker_container] |}.

Definition example_las (_ : unit) (_ : string) (_ : option string)
  : result (list string) := Ok ["arn:service/web"; "arn:service/worker"].

Definition example_ds (_ : unit) (_ : option string) (_ : list string)
  : result (list Service) :=
  Ok [{| srv_ServiceName := Some "web"; srv_TaskDefinition := Some "arn:td/web:1" |};
      {| srv_ServiceName := Some "worker"; srv_TaskDefinition := Some "arn:td/worker:1" |}].

Definition td_not_found : error := AwsErr "ClientException" "Unable to describe task definition.".

Definition example_dtd {E : Type} (_ : E) (arn : option string) : result TaskDefinition :=
  if String.eqb (safeString arn) "arn:td/web:1" then Ok web_td
  else if String.eqb (safeString arn) "arn:td/worker:1" then Ok worker_td
  else Err td_not_found.

(** A backend that only knows the web task definition. *)
Definition web_only_dtd (_ : unit) (arn : option string) : result TaskDefinition :=
  if String.eqb (safeString arn) "arn:td/web:1" then Ok web_td else Err td_not_found.

Definition example_lat (_ : Z) (_ : string) (_ : option string)
  : result (list string) := Ok ["arn:task/t1"; "arn:task/t2"].

Definition example_dts (_ : Z) (_ : option string) (_ : list string)
  : list Task * option error :=
  ([{| task_TaskArn := "arn:task/t1"; task_TaskDefinitionArn := Some "arn:td/web:1";
       task_LastStatus := Some "RUNNING" |};
    {| task_TaskArn := "arn:task/t2"; task_TaskDefinitionArn := Some "arn:td/worker:1";
       task_LastStatus := None |}], None).

Definition example_resource_id (arn : string) : result string :=
  if String.eqb arn "arn:task/t1" then Ok "t1"
  else if String.eqb arn "arn:task/t2" then Ok "t2"
  else Err (GoErr "invalid arn").

(** A clock that ticks by one at each reading. *)
Definition example_now (t : Z) : Z * Z := ((t + 1)%Z, t).

(* ================================================================== *)
(** * Theorems *)

(** ** diffProcessTypes *)

Section DiffLemmas.

Lemma processTypes_fold_lookup (ps : list Process) (m : gmap string unit) t :
  is_Some (foldl (fun m p => <[Type_ p := tt]> m) m ps !! t) <->
  is_Some (m !! t) \/ exists p, p ∈ ps /\ Type_ p = t.
Proof.
  revert m. induction ps as [|p ps IH]; intros m; simpl.
  - split; [tauto|]. intros [H|(p & Hp & _)]; [done|]. by apply elem_of_nil in Hp.
  - rewrite IH. rewrite lookup_insert. case_decide as Heq.
    + split; [intros _; right; exists p; split; [apply elem_of_cons; by left|done]|].
      intros _. left. by eexists.
    + split.
      * intros [H|(q & Hq & Ht)]; [by left|right; exists q; split; [apply elem_of_cons; by right|done]].
      * intros [H|(q & Hq & Ht)]; [by left|].
        apply elem_of_cons in Hq as [->|Hq]; [done|]. right. eauto.
Qed.

Lemma processTypes_lookup (ps : list Process) t :
  is_Some (processTypes ps !! t) <-> exists p, p ∈ ps /\ Type_ p = t.
Proof.
  unfold processTypes. rewrite processTypes_fold_lookup, lookup_empty.
  split; [intros [H|H]; [by destruct H|done]|by right].
Qed.

Lemma diff_fold_eq (nm : gmap string unit) (l : list (string * unit)) acc :
  foldl (fun types (e : string * unit) =>
           match nm !! e.1 with Some _ => types | None => app types [e.1] end) acc l
  = app acc (filter (fun t => nm !! t = None) (map fst l)).
Proof.
  revert acc. induction l as [|[t u] l IH]; intros acc; simpl.
  - by rewrite app_nil_r.
  - rewrite IH. rewrite filter_cons. simpl.
    destruct (nm !! t) eqn:E; case_decide; simpl; try congruence;
      try done; by rewrite <- app_assoc.
Qed.

Lemma diffProcessTypes_eq (old new : list Process) :
  diffProcessTypes old new =
  filter (fun t => processTypes new !! t = None) (map fst (map_to_list (processTypes old))).
Proof. unfold diffProcessTypes. by rewrite diff_fold_eq. Qed.

End DiffLemmas.

(** C1. The removal set of diffProcessTypes holds exactly the types of
    [old] that are not types of [new], each once; on {web, worker, clock}
    against {web, worker} it is exactly [clock]. *)
Theorem diffProcessTypes_removal_set :
  (forall (old new : list Process) t,
     t ∈ diffProcessTypes old new <->
     (exists p, p ∈ old /\ Type_ p = t) /\ ~ (exists p, p ∈ new /\ Type_ p = t)) /\
  (forall (old new : list Process), NoDup (diffProcessTypes old new)) /\
  diffProcessTypes (map process_of_type ["web"; "worker"; "clock"])
                   (map process_of_type ["web"; "worker"]) = ["clock"].
Proof.
  split; [|split].
  - intros old new t. rewrite diffProcessTypes_eq, list_elem_of_filter.
    rewrite <- processTypes_lookup, <- processTypes_lookup.
    rewrite list_elem_of_fmap. split.
    + intros [Hn ([t' u] & Ht & Hin)]. simpl in Ht. subst t'.
      apply elem_of_map_to_list in Hin.
      split; [by eexists|]. rewrite Hn. intros [? ?]; done.
    + intros [[u Hu] Hn]. split.
      * destruct (processTypes new !! t); [|done]. exfalso. apply Hn. by eexists.
      * exists (t, u). split; [done|]. by apply elem_of_map_to_list.
  - intros old new. rewrite diffProcessTypes_eq.
    apply NoDup_filter. apply NoDup_fst_map_to_list.
  - vm_compute. reflexivity.
Qed.

(** ** validateLoadBalancedConfig and NewLoadBalancedScheduler *)

(** C9. When a required field of the config is missing,
    NewLoadBalancedScheduler returns "<first missing field> is required",
    no Scheduler, and builds no client; when none is missing the
    validation passes. *)
Theorem NewLoadBalancedScheduler_validation (c : Config) :
  match missing_fields c with
  | f :: _ =>
      NewLoadBalancedScheduler c = ([], (None, Some (GoErr (f +:+ " is required"))))
  | [] => validateLoadBalancedConfig c = None
  end.
Proof.
  unfold missing_fields, NewLoadBalancedScheduler, validateLoadBalancedConfig.
  destruct (String.eqb (Cluster c) ""); [done|].
  destruct (String.eqb (ServiceRole c) ""); [done|].
  destruct (String.eqb (ZoneID c) ""); [done|].
  destruct (String.eqb (InternalSecurityGroupID c) ""); [done|].
  destruct (String.eqb (ExternalSecurityGroupID c) ""); [done|].
  destruct (InternalSubnetIDs c); [done|].
  destruct (ExternalSubnetIDs c); done.
Qed.

(** ** Scheduler.Submit *)

Section SubmitProofs.

Variable S : Type.
Variable pm_Processes : S -> string -> S * (list Process * option error).
Variable pm_CreateProcess : S -> App -> Process -> S * option error.
Variable pm_RemoveProcess : S -> string -> string -> S * option error.

Lemma createAll_run (app : App) (ps : list Process) (s : S) :
  let '(s', log, r) := createAll S pm_CreateProcess app ps s in
  exists called, log = map (PMCreateProcess app) called /\
    loop_outcome (fun s p => pm_CreateProcess s app p) s ps s' called r.
Proof.
  revert s. induction ps as [|p ps IH]; intros s; simpl.
  - exists []. split; [done|]. left. split; [done|]. split; [done|]. constructor.
  - unfold CreateProcess, bind, call, ret.
    destruct (pm_CreateProcess s app p) as [s1 [e|]] eqn:Hc; simpl.
    + exists [p]. split; [done|]. right. exists [], p, ps, s, e.
      split; [done|]. split; [done|]. split; [constructor|]. by split.
    + specialize (IH s1).
      destruct (createAll S pm_CreateProcess app ps s1) as [[s2 log] r]; simpl.
      destruct IH as (called & -> & [(-> & -> & Hsteps)|(pre & x & post & s_k & e & -> & -> & Hsteps & Hx & ->)]).
      * exists (p :: ps). split; [done|]. left. split; [done|]. split; [done|].
        by econstructor.
      * exists (p :: pre ++ [x])%list. split; [done|]. right.
        exists (p :: pre), x, post, s_k, e. split; [done|]. split; [done|].
        split; [by econstructor|]. by split.
Qed.

Lemma removeAll_run (appID : string) (ts : list string) (s : S) :
  let '(s', log, r) := removeAll S pm_RemoveProcess appID ts s in
  exists called, log = map (PMRemoveProcess appID) called /\
    loop_outcome (fun s t => pm_RemoveProcess s appID t) s ts s' called r.
Proof.
  revert s. induction ts as [|t ts IH]; intros s; simpl.
  - exists []. split; [done|]. left. split; [done|]. split; [done|]. constructor.
  - unfold RemoveProcess, bind, call, ret.
    destruct (pm_RemoveProcess s appID t) as [s1 [e|]] eqn:Hc; simpl.
    + exists [t]. split; [done|]. right. exists [], t, ts, s, e.
      split; [done|]. split; [done|]. split; [constructor|]. by split.
    + specialize (IH s1).
      destruct (removeAll S pm_RemoveProcess appID ts s1) as [[s2 log] r]; simpl.
      destruct IH as (called & -> & [(-> & -> & Hsteps)|(pre & x & post & s_k & e & -> & -> & Hsteps & Hx & ->)]).
      * exists (t :: ts). split; [done|]. left. split; [done|]. split; [done|].
        by econstructor.
      * exists (t :: pre ++ [x])%list. split; [done|]. right.
        exists (t :: pre), x, post, s_k, e. split; [done|]. split; [done|].
        split; [by econstructor|]. by split.
Qed.

End SubmitProofs.

(** C2. Submit first lists the provisioned processes, then calls
    CreateProcess on app.Processes in declaration order, and only when
    every one of them succeeds calls RemoveProcess on the types of the
    listing absent from the declaration, stopping at the first failing
    removal.  If a CreateProcess call fails, every earlier call succeeded,
    Submit returns that call's error, and the log ends with that call: no
    removal, no further creation, nothing undone.  The states are those of
    the actual run. *)
Theorem Submit_call_order (S : Type)
    (pm_Processes : S -> string -> S * (list Process * option error))
    (pm_CreateProcess : S -> App -> Process -> S * option error)
    (pm_RemoveProcess : S -> string -> string -> S * option error)
    (app : App) (s : S) :
  let '(s_end, log, r) :=
    Submit S pm_Processes pm_CreateProcess pm_RemoveProcess app s in
  let '(s1, (procs, perr)) := pm_Processes s (ID app) in
  match perr with
  | Some e => s_end = s1 /\ log = [PMProcesses (ID app)] /\ r = Some e
  | None =>
      (exists pre p post s_k e,
         Processes app = (pre ++ p :: post)%list /\
         steps_ok (fun s p => pm_CreateProcess s app p) s1 pre s_k /\
         pm_CreateProcess s_k app p = (s_end, Some e) /\
         log = PMProcesses (ID app) :: map (PMCreateProcess app) (pre ++ [p])%list /\
         r = Some e) \/
      (exists s2 rems,
         steps_ok (fun s p => pm_CreateProcess s app p) s1 (Processes app) s2 /\
         log = PMProcesses (ID app) :: (map (PMCreateProcess app) (Processes app)
               ++ map (PMRemoveProcess (ID app)) rems)%list /\
         loop_outcome (fun s t => pm_RemoveProcess s (ID app) t) s2
           (diffProcessTypes procs (Processes app)) s_end rems r)
  end.
Proof.
  unfold Submit, listProcesses, bind, call, ret.
  destruct (pm_Processes s (ID app)) as [s1 [procs [e|]]]; simpl; [done|].
  pose proof (createAll_run S pm_CreateProcess app (Processes app) s1) as Hc.
  destruct (createAll S pm_CreateProcess app (Processes app) s1) as [[s2 log] r].
  destruct Hc as (called & -> & [(-> & -> & Hsteps)|(pre & p & post & s_k & e & Hps & -> & Hsteps & Hp & ->)]); simpl.
  - pose proof (removeAll_run S pm_RemoveProcess (ID app)
                  (diffProcessTypes procs (Processes app)) s2) as Hr.
    destruct (removeAll S pm_RemoveProcess (ID app)
                (diffProcessTypes procs (Processes app)) s2) as [[s3 log3] r3].
    destruct Hr as (rems & -> & Ho). right. exists s2, rems. done.
  - left. exists pre, p, post, s_k, e. by rewrite app_nil_r.
Qed.

(** ** ecsProcessManager.RemoveProcess *)

(** C3. RemoveProcess scales the service to zero and then deletes it;
    an error of either step classified by noService (one of the four
    known not-found messages of an AWS error) is turned into success, and
    any other error is returned unchanged. *)
Theorem ecsRemoveProcess_not_found_is_success (E : Type)
    (ecs_UpdateAppService : E -> string -> UpdateServiceInput -> E * option error)
    (ecs_DeleteAppService : E -> string -> DeleteServiceInput -> E * option error)
    (m : ecsProcessManager) (app process : string) (e0 : E) :
  (let scale_in := scaleInput m process 0 in
   let del_in := deleteInput m process in
   let '(_, log, r) :=
     ecsRemoveProcess E ecs_UpdateAppService ecs_DeleteAppService m app process e0 in
   let '(e1, serr) := ecs_UpdateAppService e0 app scale_in in
   usi_DesiredCount scale_in = Some 0%Z /\
   match serr with
   | Some err =>
       log = [ECSUpdateAppService app scale_in] /\
       r = (if noService (Some err) then None else Some err)
   | None =>
       let '(_, derr) := ecs_DeleteAppService e1 app del_in in
       log = [ECSUpdateAppService app scale_in; ECSDeleteAppService app del_in] /\
       r = match derr with
           | Some err => if noService (Some err) then None else Some err
           | None => None
           end
   end) /\
  (forall err, noService (Some err) = true <->
     exists code msg, err = AwsErr code msg /\
       msg ∈ ["Service was not ACTIVE.";
              "Could not find returned type com.amazon.madison.cmb#CMServiceNotActiveException in model";
              "Could not find returned type com.amazon.madison.cmb#CMServiceNotFoundException in model";
              "Service not found."]).
Proof.
  split.
  - unfold ecsRemoveProcess, Scale, bind, call, ret. cbn -[noService].
    destruct (ecs_UpdateAppService e0 app (scaleInput m process 0)) as [e1 [err|]];
      cbn -[noService].
    + destruct (noService (Some err)); done.
    + change (noService None) with false. cbn -[noService].
      destruct (ecs_DeleteAppService e1 app (deleteInput m process)) as [e2 [err|]];
        cbn -[noService].
      * destruct (noService (Some err)); done.
      * change (noService None) with false. done.
  - intros err. destruct err as [code msg|msg]; simpl.
    + split.
      * intros H. exists code, msg. split; [done|].
        revert H.
        repeat (case_match;
                [intros _;
                 match goal with Heq : String.eqb _ _ = true |- _ =>
                   apply String.eqb_eq in Heq; subst end;
                 apply list_elem_of_In; simpl; tauto|]).
        intros [=].
      * intros (c & m' & [= <- <-] & Hin).
        repeat (apply elem_of_cons in Hin as [->|Hin]; [done|]).
        by apply elem_of_nil in Hin.
    + split; [done|]. intros (c & m' & [=] & _).
Qed.

(** ** Task definitions *)

(** C10. taskDefinitionToProcess fails, returning no Process, on a task
    definition without container definitions; otherwise it returns a
    Process built from the first container definition alone: any task
    definition with the same first container gives the same Process. *)
Theorem taskDefinitionToProcess_first_container (td : TaskDefinition) :
  match td_ContainerDefinitions td with
  | [] => taskDefinitionToProcess td =
            Err (GoErr "task definition had no container definitions")
  | c :: _ =>
      exists p, taskDefinitionToProcess td = Ok p /\
        forall (family arn : option string) (rest : list ContainerDefinition),
          taskDefinitionToProcess
            {| td_Family := family; td_TaskDefinitionArn := arn;
               td_ContainerDefinitions := c :: rest |} = Ok p
  end.
Proof.
  unfold taskDefinitionToProcess.
  destruct (td_ContainerDefinitions td) as [|c rest]; [done|].
  eexists. split; [reflexivity|]. intros family arn rest'. reflexivity.
Qed.

Section ShellwordsLemmas.

Local Arguments String.append : simpl nomatch.

Lemma str_app_assoc (a b c : string) : (a +:+ b) +:+ c = a +:+ (b +:+ c).
Proof. induction a as [|x a IH]; [reflexivity|]. cbn. by f_equal. Qed.

Lemma str_app_nil_r (a : string) : a +:+ "" = a.
Proof. induction a as [|x a IH]; [reflexivity|]. cbn. by f_equal. Qed.

Lemma str_app_ne (x r : string) : r <> "" -> x +:+ r <> "".
Proof. destruct x; simpl; [done|discriminate]. Qed.

Lemma plainChar_special (c : ascii) :
  plainChar c = true ->
  Nat.ltb (nat_of_ascii c) 128 = true /\ isSpaceRune (str1 c) = false /\
  isSpace (str1 c) = false /\ String.eqb (str1 c) (str1 backslash) = false /\
  String.eqb (str1 c) (str1 bquote) = false /\
  String.eqb (str1 c) (str1 dquote) = false /\
  String.eqb (str1 c) (str1 squote) = false.
Proof.
  destruct c as [[] [] [] [] [] [] [] []]; vm_compute; intros H;
    try discriminate H; repeat split.
Qed.

Fixpoint chars (s : string) : list string :=
  match s with
  | EmptyString => []
  | String c s' => str1 c :: chars s'
  end.

Fixpoint allAscii (s : string) : bool :=
  match s with
  | EmptyString => true
  | String c s' => Nat.ltb (nat_of_ascii c) 128 && allAscii s'
  end.

Lemma chars_app (x y : string) : chars (x +:+ y) = (chars x ++ chars y)%list.
Proof. induction x as [|c x IH]; [reflexivity|]. cbn. by rewrite IH. Qed.

Lemma allAscii_app (x y : string) :
  allAscii (x +:+ y) = allAscii x && allAscii y.
Proof.
  induction x as [|c x IH]; [reflexivity|]. cbn. rewrite IH. apply andb_assoc.
Qed.

Lemma allPlain_ascii (w : string) : allPlain w = true -> allAscii w = true.
Proof.
  induction w as [|c w IH]; [done|]. cbn [allPlain allAscii]. intros Hw.
  apply andb_prop in Hw as [Hc Hw].
  destruct (plainChar_special c Hc) as (Ha & _). rewrite Ha. by apply IH.
Qed.

Lemma str_length_app (x y : string) :
  String.length (x +:+ y) = String.length x + String.length y.
Proof. induction x as [|c x IH]; [reflexivity|]. cbn. by rewrite IH. Qed.

Lemma substring_all (s : string) (n : nat) :
  String.length s <= n -> String.substring 0 n s = s.
Proof.
  revert n. induction s as [|c s IH]; intros n Hn; [by destruct n|].
  destruct n as [|n]; [cbn in Hn; lia|]. cbn. f_equal. apply IH. cbn in Hn. lia.
Qed.

Lemma get_app_len (x : string) (d : ascii) :
  String.get (String.length x) (x +:+ str1 d) = Some d.
Proof. induction x as [|c x IH]; [reflexivity|]. exact IH. Qed.

Lemma substring_app_len (x : string) (d : ascii) :
  String.substring (String.length x) 1 (x +:+ str1 d) = str1 d.
Proof. induction x as [|c x IH]; [reflexivity|]. exact IH. Qed.

Lemma substring_first (c : ascii) (s : string) :
  String.substring 0 1 (String c s) = str1 c.
Proof. by destruct s. Qed.

Lemma decodeRune_ascii (c : ascii) (s : string) :
  Nat.ltb (nat_of_ascii c) 128 = true -> decodeRune c s = (1, true).
Proof. intros H. unfold decodeRune. by rewrite H. Qed.

Lemma runes_ascii (s : string) (n : nat) :
  allAscii s = true -> String.length s <= n -> runes n s = chars s.
Proof.
  revert n. induction s as [|c s IH]; intros n Ha Hn; [by destruct n|].
  destruct n as [|n]; [cbn in Hn; lia|].
  cbn [allAscii] in Ha. apply andb_prop in Ha as [Hc Ha].
  cbn [String.length] in Hn.
  assert (E : String.substring 1 (String.length (String c s) - 1) (String c s) = s).
  { cbn [String.length String.substring]. rewrite ?Nat.sub_0_r.
    apply substring_all. lia. }
  cbn [runes]. rewrite decodeRune_ascii by done. cbn beta iota zeta.
  rewrite E. cbn [chars]. f_equal; [by destruct s|]. apply IH; [done|lia].
Qed.

Lemma parseLoop_app (l1 l2 : list string) (st : pstate) :
  parseLoop (l1 ++ l2)%list st = parseLoop l2 (parseLoop l1 st).
Proof. revert st. induction l1 as [|r l1 IH]; intros st; [done|]. apply IH. Qed.

Lemma parseLoop_plain (w : string) (args : list string) (buf : string) :
  allPlain w = true ->
  parseLoop (chars w) (mkP args buf false false false false) =
  mkP args (buf +:+ w) false false false false.
Proof.
  revert buf. induction w as [|c w IH]; intros buf Hw.
  - cbn. by rewrite str_app_nil_r.
  - cbn in Hw. apply andb_prop in Hw as [Hc Hw].
    destruct (plainChar_special c Hc) as (_ & _ & H1 & H2 & H3 & H4 & H5).
    cbn [chars parseLoop]. unfold pstep.
    rewrite H2, H1, H3, H4, H5. cbn beta iota.
    rewrite IH by done. by rewrite str_app_assoc.
Qed.

Lemma pstep_space (args : list string) (w : string) :
  w <> "" ->
  pstep (mkP args w false false false false) (str1 " ") =
  mkP (args ++ [w])%list "" false false false false.
Proof.
  intros Hne. unfold pstep. cbn.
  destruct (String.eqb_spec w "") as [?|_]; [done|]. reflexivity.
Qed.

Lemma concat_cons_ne (w : string) (ws : list string) :
  w <> "" -> String.concat " " (w :: ws) <> "".
Proof.
  intros Hw. destruct ws as [|w' ws]; simpl; [done|]. by apply str_app_ne.
Qed.

Lemma parseLoop_words (ws : list string) (w : string) (args : list string) :
  plainWord w -> Forall plainWord ws ->
  exists init lw, (w :: ws) = (init ++ [lw])%list /\ plainWord lw /\
    parseLoop (chars (String.concat " " (w :: ws)))
              (mkP args "" false false false false) =
    mkP (args ++ init)%list lw false false false false.
Proof.
  revert w args. induction ws as [|w' ws IH]; intros w args [Hne Hw] Hws.
  - exists [], w. split; [done|]. split; [done|].
    cbn [String.concat]. rewrite parseLoop_plain by done.
    cbn. by rewrite app_nil_r.
  - apply Forall_cons in Hws as [Hw' Hws].
    change (String.concat " " (w :: w' :: ws))
      with (w +:+ (" " +:+ String.concat " " (w' :: ws))).
    rewrite chars_app, parseLoop_app, parseLoop_plain by done.
    change ("" +:+ w) with w.
    change (chars (" " +:+ ?X)) with (str1 " " :: chars X).
    cbn [parseLoop]. rewrite pstep_space by done.
    destruct (IH w' (args ++ [w])%list Hw' Hws) as (init & lw & Heq & Hlw & Hl).
    rewrite Hl. exists (w :: init), lw. split; [by rewrite Heq|].
    split; [done|]. by rewrite <- app_assoc.
Qed.

Lemma words_ascii (ws : list string) :
  Forall plainWord ws -> allAscii (String.concat " " ws) = true.
Proof.
  induction ws as [|w ws IH]; intros Hws; [done|].
  apply Forall_cons in Hws as [[_ Hw] Hws].
  destruct ws as [|w' ws].
  - by apply allPlain_ascii.
  - change (String.concat " " (w :: w' :: ws))
      with (w +:+ (" " +:+ String.concat " " (w' :: ws))).
    rewrite !allAscii_app, allPlain_ascii by done. cbn. by apply IH.
Qed.

Lemma string_snoc (w : string) :
  w <> "" -> exists x d, w = x +:+ str1 d.
Proof.
  induction w as [|c w IH]; intros Hne; [done|].
  destruct (String.eqb_spec w "") as [->|Hw].
  - by exists "", c.
  - destruct (IH Hw) as (x & d & ->). by exists (String c x), d.
Qed.

Lemma allPlain_last (x : string) (d : ascii) :
  allPlain (x +:+ str1 d) = true -> plainChar d = true.
Proof.
  induction x as [|c x IH]; cbn; intros H.
  - by apply andb_prop in H as [H _].
  - apply andb_prop in H as [_ H]. by apply IH.
Qed.

Lemma words_last (ws : list string) (w : string) :
  plainWord w -> Forall plainWord ws ->
  exists x d, String.concat " " (w :: ws) = x +:+ str1 d /\ plainChar d = true.
Proof.
  revert w. induction ws as [|w' ws IH]; intros w [Hne Hw] Hws.
  - destruct (string_snoc w Hne) as (x & d & ->). exists x, d.
    split; [done|]. by apply allPlain_last with x.
  - apply Forall_cons in Hws as [Hw' Hws].
    destruct (IH w' Hw' Hws) as (x & d & Hx & Hd).
    change (String.concat " " (w :: w' :: ws))
      with (w +:+ (" " +:+ String.concat " " (w' :: ws))).
    rewrite Hx. exists (w +:+ (" " +:+ x)), d. split; [|done].
    by rewrite !str_app_assoc.
Qed.

Lemma trimLeft_plain (c : ascii) (s : string) (n : nat) :
  plainChar c = true -> trimLeft (S n) (String c s) = String c s.
Proof.
  intros Hc. destruct (plainChar_special c Hc) as (Ha & Hs & _).
  cbn [trimLeft]. rewrite decodeRune_ascii by done.
  cbv beta iota zeta. rewrite substring_first. by rewrite Hs.
Qed.

Lemma decodeLastRune_plain (x : string) (d : ascii) :
  Nat.ltb (nat_of_ascii d) 128 = true -> decodeLastRune (x +:+ str1 d) = (1, true).
Proof.
  intros Ha.
  assert (Hlen : String.length (x +:+ str1 d) = S (String.length x)).
  { rewrite str_length_app. cbn. lia. }
  unfold decodeLastRune. rewrite Hlen.
    replace (S (String.length x) - 1) with (String.length x) by lia.
    rewrite get_app_len. cbn zeta. by rewrite Ha.
Qed.
Lemma append_str1_ne (x : string) (d : ascii) : String.eqb (x +:+ str1 d) "" = false.
Proof. destruct x; reflexivity. Qed.
Lemma lastNonSpace_plain (x : string) (d : ascii) :
  plainChar d = true ->
  lastNonSpace (String.length (x +:+ str1 d)) (x +:+ str1 d) = Some (String.length x).
Proof.
  intros Hd. destruct (plainChar_special d Hd) as (Ha & Hs & _).
  assert (Hlen : String.length (x +:+ str1 d) = S (String.length x)).
  { rewrite str_length_app. cbn. lia. }
  rewrite Hlen at 1. cbn [lastNonSpace].
  rewrite append_str1_ne, decodeLastRune_plain by done. rewrite Hlen.
  replace (S (String.length x) - 1) with (String.length x) by lia.
  rewrite substring_app_len, Hs. reflexivity.
Qed.
Lemma trimRight_plain (x : string) (d : ascii) :
  plainChar d = true -> trimRight (x +:+ str1 d) = x +:+ str1 d.
Proof.
  intros Hd. destruct (plainChar_special d Hd) as (Ha & _).
  unfold trimRight. rewrite lastNonSpace_plain by done.
  rewrite get_app_len, Ha. cbv zeta.
  apply substring_all. rewrite str_length_app. cbn. lia.
Qed.

(** A command made of plain words separated by single spaces is parsed
    back into those words. *)
Lemma Parse_plain_words (ws : list string) :
  Forall plainWord ws -> Parse (String.concat " " ws) = Ok ws.
Proof.
  intros Hws. destruct ws as [|w ws]; [reflexivity|].
  pose proof (words_ascii (w :: ws) Hws) as Hascii.
  apply Forall_cons in Hws as [Hw Hws].
  assert (Htrim : TrimSpace (String.concat " " (w :: ws)) = String.concat " " (w :: ws)).
  { unfold TrimSpace.
    assert (Hl : trimLeft (String.length (String.concat " " (w :: ws)))
                   (String.concat " " (w :: ws)) = String.concat " " (w :: ws)).
    { destruct Hw as [Hne Hw]. destruct w as [|c w']; [done|].
      cbn in Hw. apply andb_prop in Hw as [Hc _].
      destruct ws as [|w'' ws]; cbn [String.concat]; cbn [String.append];
        cbn [String.length]; by apply trimLeft_plain. }
    rewrite Hl. destruct (words_last ws w Hw Hws) as (x & d & Hx & Hd).
    rewrite Hx. by apply trimRight_plain. }
  unfold Parse. cbv zeta. rewrite Htrim.
  rewrite runes_ascii by done.
  destruct (parseLoop_words ws w [] Hw Hws) as (init & lw & Heq & [Hne _] & ->).
  cbn. destruct (String.eqb_spec lw "") as [?|_]; [done|]. by rewrite Heq.
Qed.

End ShellwordsLemmas.

Section RoundTripLemmas.

Lemma to_uint_to_int64 (x : Z) : (0 <= x < two64)%Z -> to_uint (to_int64 x) = x.
Proof.
  intros Hx. unfold to_int64, to_uint.
  rewrite (Z.mod_small x two64) by lia.
  destruct (Z.ltb_spec x (2 ^ 63)).
  - by apply Z.mod_small.
  - replace (x - two64)%Z with (x + (-1) * two64)%Z by lia.
    rewrite Z_mod_plus_full. by apply Z.mod_small.
Qed.

Lemma memory_round_trip (x : Z) :
  (0 <= x < two64)%Z ->
  to_uint (to_uint (to_int64 (x / MB)) * MB) = (x - x mod MB)%Z.
Proof.
  intros Hx. unfold to_int64, to_uint, two64, MB in *.
  assert (Hmb : (0 < 2 ^ 20)%Z) by lia.
  pose proof (Z.div_mod x (2 ^ 20) ltac:(lia)) as Hdm.
  pose proof (Z.mod_pos_bound x (2 ^ 20) Hmb) as Hmod.
  assert (Hq : (0 <= x / 2 ^ 20 < 2 ^ 44)%Z).
  { split; [apply Z.div_pos; lia|]. apply Z.div_lt_upper_bound; lia. }
  rewrite (Z.mod_small (x / 2 ^ 20)) by lia.
  destruct (Z.ltb_spec (x / 2 ^ 20) (2 ^ 63)); [|lia].
  rewrite (Z.mod_small (x / 2 ^ 20)) by lia.
  rewrite Z.mod_small by lia. lia.
Qed.

Lemma env_fold (l : list (string * string)) (m : gmap string string) :
  NoDup l.*1 ->
  foldl (fun env kvp =>
           match kvp with
           | Some kvp => <[safeString (kv_Name kvp) := safeString (kv_Value kvp)]> env
           | None => env
           end) m
        (map (fun kv : string * string =>
                Some {| kv_Name := Some kv.1; kv_Value := Some kv.2 |}) l)
  = list_to_map l ∪ m.
Proof.
  revert m. induction l as [|[k v] l IH]; intros m Hnd; simpl.
  - by rewrite (left_id_L ∅ (∪)).
  - apply NoDup_cons in Hnd as [Hk Hnd]. simpl in Hk.
    rewrite IH by done.
    rewrite <- insert_union_l, insert_union_r; [done|].
    by apply not_elem_of_list_to_map_1.
Qed.

End RoundTripLemmas.

(** A process whose command has two spaces between its words. *)
(** C4 (counterexample). The command does not survive the round trip:
    "a  b" is split into the words a and b and joined back as "a b". *)
Lemma taskDefinition_round_trip_command_cex :
  exists ri q,
    taskDefinitionInput two_space_process = Ok ri /\
    taskDefinitionToProcess (registered ri None) = Ok q /\
    Command q = "a b" /\ Command q <> Command two_space_process.
Proof.
  destruct (taskDefinitionInput two_space_process) as [ri|e] eqn:E1;
    [|vm_compute in E1; discriminate].
  destruct (taskDefinitionToProcess (registered ri None)) as [q|e] eqn:E2;
    vm_compute in E1; injection E1 as <-;
    vm_compute in E2; [|discriminate].
  injection E2 as <-.
  eexists. eexists. split; [vm_compute; reflexivity|].
  split; [vm_compute; reflexivity|].
  split; vm_compute; [reflexivity|discriminate].
Qed.

(** C4 (amended). For a process whose uint fields are in range and whose
    command parses, converting it to a task definition and back gives:
    the shell words of the command joined by single spaces (the original
    command exactly when it is plain words separated by single spaces),
    the same Env, the same CPUShares, and MemoryLimit truncated down to a
    whole megabyte, equal to the original exactly when that is a multiple
    of one megabyte. *)
Theorem taskDefinition_round_trip (p : Process) (ri : RegisterTaskDefinitionInput)
    (arn : option string)
    (Hcpu : (0 <= CPUShares p < two64)%Z) (Hmem : (0 <= MemoryLimit p < two64)%Z)
    (Hin : taskDefinitionInput p = Ok ri) :
  exists q args,
    Parse (Command p) = Ok args /\
    taskDefinitionToProcess (registered ri arn) = Ok q /\
    Command q = String.concat " " args /\
    (forall ws, Forall plainWord ws -> Command p = String.concat " " ws ->
                Command q = Command p) /\
    Env q = Env p /\
    CPUShares q = CPUShares p /\
    MemoryLimit q = (MemoryLimit p - MemoryLimit p mod MB)%Z /\
    (MemoryLimit q = MemoryLimit p <-> (MemoryLimit p mod MB = 0)%Z).
Proof.
  unfold taskDefinitionInput in Hin.
  destruct (Parse (Command p)) as [args|e] eqn:Hp; [|discriminate].
  injection Hin as <-.
  eexists. exists args. split; [done|]. split; [reflexivity|]. simpl.
  split; [done|]. split.
  { intros ws Hws Hc. rewrite Hc in Hp. rewrite Parse_plain_words in Hp by done.
    injection Hp as ->. by rewrite Hc. }
  split.
  { rewrite env_fold by apply NoDup_fst_map_to_list.
    by rewrite list_to_map_to_list, (right_id_L ∅ (∪)). }
  split; [by apply to_uint_to_int64|].
  rewrite memory_round_trip by done. split; [done|].
  pose proof (Z.mod_pos_bound (MemoryLimit p) MB ltac:(unfold MB; lia)). lia.
Qed.

(** ** ELBManager.CreateLoadBalancer *)

(** C5. The only create call CreateLoadBalancer makes passes an HTTP
    listener on port 80 forwarding to opts.InstancePort, followed, exactly
    when opts.SSLCert is non-empty, by an HTTPS listener on port 443 with
    that certificate forwarding to the same port, and no other listener. *)
Theorem CreateLoadBalancer_listeners (W : Type) (newName : W -> W * string)
    (elb_CreateLoadBalancer : W -> CreateLoadBalancerInput -> W * result string)
    (elb_ModifyLoadBalancerAttributes :
       W -> ModifyLoadBalancerAttributesInput -> W * option error)
    (m : ELBManager) (o : CreateLoadBalancerOpts) (w : W) :
  let '(_, log, _) :=
    CreateLoadBalancer W newName elb_CreateLoadBalancer
      elb_ModifyLoadBalancerAttributes m o w in
  exists input,
    head log = Some (ELBCreateLoadBalancer input) /\
    (forall i, ELBCreateLoadBalancer i ∈ log -> i = input) /\
    clb_Listeners input =
      ({| l_InstancePort := o_InstancePort o; l_LoadBalancerPort := 80;
          l_Protocol := "http"; l_InstanceProtocol := "http";
          l_SSLCertificateId := None |} ::
       (if String.eqb (o_SSLCert o) "" then []
        else [{| l_InstancePort := o_InstancePort o; l_LoadBalancerPort := 443;
                 l_Protocol := "https"; l_InstanceProtocol := "http";
                 l_SSLCertificateId := Some (o_SSLCert o) |}])).
Proof.
  unfold CreateLoadBalancer, bind, call, ret.
  destruct (newName w) as [w1 n]. cbn.
  assert (Hl : clb_Listeners (createInput m o n) =
    ({| l_InstancePort := o_InstancePort o; l_LoadBalancerPort := 80;
        l_Protocol := "http"; l_InstanceProtocol := "http";
        l_SSLCertificateId := None |} ::
     (if String.eqb (o_SSLCert o) "" then []
      else [{| l_InstancePort := o_InstancePort o; l_LoadBalancerPort := 443;
               l_Protocol := "https"; l_InstanceProtocol := "http";
               l_SSLCertificateId := Some (o_SSLCert o) |}]))).
  { unfold createInput, elbListeners.
    destruct (o_External o); simpl; destruct (String.eqb (o_SSLCert o) ""); done. }
  destruct (elb_CreateLoadBalancer w1 (createInput m o n)) as [w2 [dns|e]]; cbn.
  - destruct (elb_ModifyLoadBalancerAttributes w2 (attributesInput n)) as [w3 [e|]];
      cbn; exists (createInput m o n); (split; [done|]); (split; [|done]);
      intros i Hi; repeat (apply elem_of_cons in Hi as [Hi|Hi]; [congruence|]);
      by apply elem_of_nil in Hi.
  - exists (createInput m o n). split; [done|]. split; [|done].
    intros i Hi. apply elem_of_cons in Hi as [Hi|Hi]; [congruence|].
    by apply elem_of_nil in Hi.
Qed.

(** C6. When the create call succeeds but enabling connection draining
    and cross-zone balancing fails, CreateLoadBalancer returns that error
    and no LoadBalancer, although the load balancer was created. *)
Theorem CreateLoadBalancer_attributes_failure (W : Type) (newName : W -> W * string)
    (elb_CreateLoadBalancer : W -> CreateLoadBalancerInput -> W * result string)
    (elb_ModifyLoadBalancerAttributes :
       W -> ModifyLoadBalancerAttributesInput -> W * option error)
    (m : ELBManager) (o : CreateLoadBalancerOpts)
    (w w1 w2 w3 : W) (name dnsName : string) (e : error)
    (Hname : newName w = (w1, name))
    (Hcreate : elb_CreateLoadBalancer w1 (createInput m o name) = (w2, Ok dnsName))
    (Hmodify : elb_ModifyLoadBalancerAttributes w2 (attributesInput name) = (w3, Some e)) :
  CreateLoadBalancer W newName elb_CreateLoadBalancer elb_ModifyLoadBalancerAttributes m o w
  = (w3, [ELBCreateLoadBalancer (createInput m o name);
          ELBModifyLoadBalancerAttributes (attributesInput name)], (None, Some e)).
Proof.
  unfold CreateLoadBalancer, bind, call, ret.
  rewrite Hname. cbn. rewrite Hcreate. cbn. rewrite Hmodify. reflexivity.
Qed.

Lemma CreateLoadBalancer_attributes_failure_witness :
  CreateLoadBalancer nat (fun w => (S w, "lb1"))
    (fun w _ => (w, Ok "lb1.elb.amazonaws.com"))
    (fun w _ => (w, Some (AwsErr "ValidationError" "attribute update failed")))
    failing_attrs_manager failing_attrs_opts 0
  = (1, [ELBCreateLoadBalancer (createInput failing_attrs_manager failing_attrs_opts "lb1");
         ELBModifyLoadBalancerAttributes (attributesInput "lb1")],
     (None, Some (AwsErr "ValidationError" "attribute update failed"))).
Proof.
  apply (CreateLoadBalancer_attributes_failure nat (fun w => (S w, "lb1"))
           (fun w _ => (w, Ok "lb1.elb.amazonaws.com"))
           (fun w _ => (w, Some (AwsErr "ValidationError" "attribute update failed")))
           failing_attrs_manager failing_attrs_opts 0 1 1 1 "lb1"
           "lb1.elb.amazonaws.com"); reflexivity.
Defined.

(** ** ELBManager.LoadBalancers *)

Section LoadBalancersProofs.

Lemma appendMatching_app (tags : gmap string string)
    (descs : gmap string LoadBalancerDescription) (tds : list TagDescription) :
  forall acc, appendMatching tags descs tds acc =
              (fun r => app acc r) <$> appendMatching tags descs tds [].
Proof.
  induction tds as [|d tds IH]; intros acc; simpl.
  - by rewrite app_nil_r.
  - destruct (containsTags tags (tdesc_Tags d)); [|apply IH].
    destruct (descs !! tdesc_LoadBalancerName d); [|done].
    rewrite (IH (app acc _)), (IH [_]).
    destruct (appendMatching tags descs tds []); simpl; [|done].
    simpl. by rewrite <- app_assoc.
Qed.

Variable W : Type.
Variable dlb : W -> DescribeLoadBalancersInput -> result DescribeLoadBalancersOutput.
Variable dtags : W -> list string -> result (list TagDescription).
Variable tags : gmap string string.
Variable w : W.

Lemma lbLoop_run : forall fuel marker acc w' log lbs,
  lbLoop W dlb dtags fuel tags marker acc w = (w', log, Some (lbs, None)) ->
  w' = w /\
  exists outs rs, fetched_pages dlb w marker outs /\
    log = pages_log marker outs /\
    Forall2 (page_contrib dtags w tags) outs rs /\
    lbs = app acc (concat rs).
Proof.
  induction fuel as [|fuel IH]; intros marker acc w' log lbs Hrun;
    [cbv [lbLoop ret] in Hrun; congruence|].
  cbn [lbLoop] in Hrun. unfold bind, read, call, ret in Hrun.
  destruct (dlb w (pageInput marker)) as [out|e] eqn:Hout; [|congruence].
  destruct (Nat.eqb (length (LoadBalancerDescriptions out)) 0) eqn:Hlen.
  { apply Nat.eqb_eq, length_zero_iff_nil in Hlen.
    injection Hrun as <- <- <-. split; [done|].
    exists [out], [[]]. split; [by apply fetched_empty|].
    split; [simpl; by rewrite Hlen|].
    split; [constructor; [by left|constructor]|]. simpl. by rewrite !app_nil_r. }
  assert (Hne : LoadBalancerDescriptions out <> []).
  { intros E. rewrite E in Hlen. discriminate. }
  destruct (dtags w (map d_LoadBalancerName (LoadBalancerDescriptions out)))
    as [tds|e] eqn:Htd; [|congruence].
  destruct (appendMatching tags
              (foldl (fun m d => <[d_LoadBalancerName d := d]> m) ∅
                     (LoadBalancerDescriptions out)) tds acc) as [acc'|] eqn:Happ;
    [|congruence].
  rewrite appendMatching_app in Happ.
  destruct (appendMatching tags
              (foldl (fun m d => <[d_LoadBalancerName d := d]> m) ∅
                     (LoadBalancerDescriptions out)) tds []) as [r|] eqn:Hr;
    simpl in Happ; [|congruence]. injection Happ as <-.
  assert (Hc : page_contrib dtags w tags out r).
  { right. split; [done|]. exists tds. by split. }
  assert (Hlog : forall l, pages_log marker (out :: l) =
            ELBDescribeLoadBalancers (pageInput marker) ::
            ELBDescribeTags (page_names out) :: pages_log (NextMarker out) l).
  { intros l. simpl. destruct (LoadBalancerDescriptions out); done. }
  destruct (NextMarker out) as [m|] eqn:Hnm.
  - destruct (String.eqb m "") eqn:Hm.
    + injection Hrun as <- <- <-. split; [done|].
      exists [out], [r]. split; [apply fetched_last; rewrite ?Hnm; done|].
      split; [rewrite Hlog; done|].
      split; [constructor; [exact Hc|constructor]|]. simpl. by rewrite app_nil_r.
    + destruct (lbLoop W dlb dtags fuel tags (Some m) (app acc r) w)
        as [[w2 log2] res2] eqn:Hrec.
      injection Hrun as <- <- ->.
      rewrite <- Hnm in Hrec.
      destruct (IH _ _ _ _ _ Hrec) as [-> (outs & rs & Hf & -> & Hrs & ->)].
      split; [done|]. exists (out :: outs), (r :: rs).
      split; [apply fetched_more; [done|done| |done]; by rewrite Hnm|].
      split; [rewrite Hlog, Hnm; done|].
      split; [by constructor|]. simpl. by rewrite app_assoc.
  - injection Hrun as <- <- <-. split; [done|].
    exists [out], [r]. split; [apply fetched_last; rewrite ?Hnm; done|].
    split; [rewrite Hlog; done|].
    split; [constructor; [exact Hc|constructor]|]. simpl. by rewrite app_nil_r.
Qed.

End LoadBalancersProofs.

Section TagFilterLemmas.

Lemma descs_lookup_notin (ds : list LoadBalancerDescription) :
  forall (m : gmap string LoadBalancerDescription) k,
  k ∉ map d_LoadBalancerName ds ->
  foldl (fun m d => <[d_LoadBalancerName d := d]> m) m ds !! k = m !! k.
Proof.
  induction ds as [|d ds IH]; intros m k Hk; simpl; [done|].
  rewrite IH; [|set_solver].
  apply lookup_insert_ne. set_solver.
Qed.

Lemma descs_lookup (ds : list LoadBalancerDescription) :
  forall (m : gmap string LoadBalancerDescription) d,
  NoDup (map d_LoadBalancerName ds) -> d ∈ ds ->
  foldl (fun m d => <[d_LoadBalancerName d := d]> m) m ds !! d_LoadBalancerName d
  = Some d.
Proof.
  induction ds as [|d0 ds IH]; intros m d Hnd Hd; simpl.
  - by apply elem_of_nil in Hd.
  - apply NoDup_cons in Hnd as [Hn0 Hnd].
    apply elem_of_cons in Hd as [->|Hd].
    + rewrite descs_lookup_notin; [|done]. apply lookup_insert_eq.
    + by apply IH.
Qed.

Variable tagsOf : string -> list Tag.
Variable tags : gmap string string.

Lemma appendMatching_all (descs : gmap string LoadBalancerDescription)
    (xs : list LoadBalancerDescription) :
  forall acc, (forall x, x ∈ xs -> descs !! d_LoadBalancerName x = Some x) ->
  appendMatching tags descs (map (tagDescOf tagsOf) (map d_LoadBalancerName xs)) acc =
  Some (app acc
    (map (fun d => lbOfDescription d (tagsOf (d_LoadBalancerName d)))
         (List.filter (fun d => containsTags tags (tagsOf (d_LoadBalancerName d))) xs))).
Proof.
  induction xs as [|x xs IH]; intros acc Hx; simpl.
  - by rewrite app_nil_r.
  - destruct (containsTags tags (tagsOf (d_LoadBalancerName x))); simpl.
    + rewrite Hx by (apply elem_of_cons; by left).
      rewrite IH by (intros y Hy; apply Hx, elem_of_cons; by right).
      by rewrite <- app_assoc.
    + apply IH. intros y Hy; apply Hx, elem_of_cons; by right.
Qed.

Lemma containsTags_spec (a : gmap string string) (b : list Tag) :
  containsTags a b = true <->
  forall k v, a !! k = Some v -> exists t, t ∈ b /\ Key t = k /\ Value t = v.
Proof.
  unfold containsTags. rewrite forallb_forall. split.
  - intros H k v Hkv.
    assert (Hin : In (k, v) (map_to_list a)).
    { apply list_elem_of_In, elem_of_map_to_list, Hkv. }
    specialize (H _ Hin). unfold containsTag in H. simpl in H.
    apply existsb_exists in H as (t & Ht & Heq).
    apply andb_true_iff in Heq as [Hk Hv].
    apply String.eqb_eq in Hk, Hv.
    exists t. split; [by apply list_elem_of_In|]. done.
  - intros H [k v] Hin.
    apply list_elem_of_In, elem_of_map_to_list in Hin.
    destruct (H k v Hin) as (t & Ht & <- & <-).
    unfold containsTag. apply existsb_exists. exists t.
    split; [by apply list_elem_of_In|]. simpl.
    by rewrite !String.eqb_refl.
Qed.

End TagFilterLemmas.

Section LoadBalancersTheorems.

Lemma List_filter_app {A} (f : A -> bool) (l1 l2 : list A) :
  List.filter f (app l1 l2) = app (List.filter f l1) (List.filter f l2).
Proof.
  induction l1 as [|x l1 IH]; simpl; [done|].
  destruct (f x); simpl; by rewrite IH.
Qed.

Lemma fetched_pages_answers {W} dlb (w : W) marker outs :
  fetched_pages dlb w marker outs ->
  Forall (fun out => exists mk, dlb w (pageInput mk) = Ok out) outs.
Proof.
  induction 1; constructor; eauto.
Qed.

Lemma page_contrib_filter {W} dtags (w : W) tags tagsOf out r :
  (forall names, dtags w names = Ok (map (tagDescOf tagsOf) names)) ->
  NoDup (page_names out) ->
  page_contrib dtags w tags out r ->
  r = map (fun d => lbOfDescription d (tagsOf (d_LoadBalancerName d)))
          (List.filter (fun d => containsTags tags (tagsOf (d_LoadBalancerName d)))
                       (LoadBalancerDescriptions out)).
Proof.
  intros Htags Hnd [[-> ->]|[_ (tds & Htd & Hr)]]; [done|].
  rewrite Htags in Htd. injection Htd as <-.
  unfold page_names in Hr.
  rewrite (appendMatching_all tagsOf tags) in Hr.
  - by injection Hr as <-.
  - intros x Hx. by apply descs_lookup.
Qed.

End LoadBalancersTheorems.

(** C8 (amended). On a successful run, LoadBalancers requests page after
    page, passing each request the continuation marker of the previous
    page (none for the first), and stops after the first page that is
    either empty or carries an absent or empty marker; it calls
    DescribeTags on every non-empty page, and the result is the
    concatenation, in page order, of what each page contributes. *)
Theorem LoadBalancers_pagination (W : Type)
    (dlb : W -> DescribeLoadBalancersInput -> result DescribeLoadBalancersOutput)
    (dtags : W -> list string -> result (list TagDescription))
    (fuel : nat) (tags : gmap string string) (w w' : W)
    (log : list elb_call) (lbs : list LoadBalancer_)
    (Hrun : LoadBalancers W dlb dtags fuel tags w = (w', log, Some (lbs, None))) :
  w' = w /\
  exists outs rs,
    fetched_pages dlb w None outs /\
    log = pages_log None outs /\
    Forall2 (page_contrib dtags w tags) outs rs /\
    lbs = concat rs.
Proof.
  destruct (lbLoop_run W dlb dtags tags w fuel None [] w' log lbs Hrun)
    as [-> (outs & rs & Hf & Hl & Hrs & Hlbs)].
  split; [done|]. by exists outs, rs.
Qed.

(** C7. When DescribeTags answers with the tags of each load balancer it
    is asked about and names are unique within a page, a successful
    LoadBalancers returns, in order, exactly the load balancers of the
    fetched pages whose tags contain every key/value pair of the filter,
    each built from its own description and tags.  The filter test is the
    superset test; an empty filter keeps every load balancer; one without
    listeners gets instance port 0 and an empty certificate. *)
Theorem LoadBalancers_tag_filter (W : Type)
    (dlb : W -> DescribeLoadBalancersInput -> result DescribeLoadBalancersOutput)
    (dtags : W -> list string -> result (list TagDescription))
    (fuel : nat) (tags : gmap string string) (tagsOf : string -> list Tag)
    (w w' : W) (log : list elb_call) (lbs : list LoadBalancer_)
    (Htags : forall names, dtags w names = Ok (map (tagDescOf tagsOf) names))
    (Hnd : forall marker out, dlb w (pageInput marker) = Ok out ->
           NoDup (page_names out))
    (Hrun : LoadBalancers W dlb dtags fuel tags w = (w', log, Some (lbs, None))) :
  (exists outs,
     fetched_pages dlb w None outs /\
     lbs = map (fun d => lbOfDescription d (tagsOf (d_LoadBalancerName d)))
             (List.filter (fun d => containsTags tags (tagsOf (d_LoadBalancerName d)))
                          (concat (map LoadBalancerDescriptions outs)))) /\
  (forall b, containsTags tags b = true <->
     forall k v, tags !! k = Some v -> exists t, t ∈ b /\ Key t = k /\ Value t = v) /\
  (forall b, containsTags ∅ b = true) /\
  (forall d ts, d_ListenerDescriptions d = [] ->
     lb_InstancePort (lbOfDescription d ts) = 0%Z /\ lb_SSLCert (lbOfDescription d ts) = "").
Proof.
  split; [|split; [|split]].
  - destruct (lbLoop_run W dlb dtags tags w fuel None [] w' log lbs Hrun)
      as [_ (outs & rs & Hf & _ & Hrs & ->)].
    exists outs. split; [done|]. simpl.
    pose proof (fetched_pages_answers dlb w None outs Hf) as Hans. clear Hf Hrun.
    induction Hrs as [|out r outs rs Hc Hrs IH]; [done|].
    apply Forall_cons in Hans as [[mk Hmk] Hans].
    simpl. rewrite List_filter_app, map_app.
    rewrite <- IH by exact Hans.
    f_equal. eapply page_contrib_filter; eauto.
  - intros b. apply containsTags_spec.
  - intros b. unfold containsTags. by rewrite map_to_list_empty.
  - intros d ts Hd. unfold lbOfDescription. rewrite Hd. by split.
Qed.

Lemma LoadBalancers_pagination_witness :
  exists log lbs,
    LoadBalancers unit example_dlb example_dtags 10 example_filter tt
      = (tt, log, Some (lbs, None)) /\
    (tt = tt /\
     exists outs rs,
       fetched_pages example_dlb tt None outs /\
       log = pages_log None outs /\
       Forall2 (page_contrib example_dtags tt example_filter) outs rs /\
       lbs = concat rs).
Proof.
  do 2 eexists. split; [vm_compute; reflexivity|].
  apply (LoadBalancers_pagination unit example_dlb example_dtags 10 example_filter tt tt).
  vm_compute. reflexivity.
Defined.

(** C8 (counterexample). The first page is empty but names a second page
    holding load balancer c: LoadBalancers stops after the first request
    and returns no load balancer, although the marker was neither absent
    nor empty. *)
Lemma LoadBalancers_empty_page_stops :
  LoadBalancers unit gap_dlb example_dtags 10 ∅ tt
    = (tt, [ELBDescribeLoadBalancers (pageInput None)], Some ([], None)) /\
  gap_dlb tt (pageInput None) = Ok gap_page1 /\
  LoadBalancerDescriptions gap_page1 = [] /\
  NextMarker gap_page1 = Some "page2" /\
  gap_dlb tt (pageInput (Some "page2")) = Ok example_page2 /\
  LoadBalancerDescriptions example_page2 = [lbDesc "c" []].
Proof.
  split; [vm_compute; reflexivity|].
  repeat split.
Qed.

Lemma LoadBalancers_tag_filter_witness :
  exists log lbs,
    LoadBalancers unit example_dlb example_dtags 10 example_filter tt
      = (tt, log, Some (lbs, None)) /\
    ((exists outs,
        fetched_pages example_dlb tt None outs /\
        lbs = map (fun d => lbOfDescription d (example_tagsOf (d_LoadBalancerName d)))
                (List.filter
                   (fun d => containsTags example_filter
                               (example_tagsOf (d_LoadBalancerName d)))
                   (concat (map LoadBalancerDescriptions outs)))) /\
     (forall b, containsTags example_filter b = true <->
        forall k v, example_filter !! k = Some v ->
                    exists t, t ∈ b /\ Key t = k /\ Value t = v) /\
     (forall b, containsTags ∅ b = true) /\
     (forall d ts, d_ListenerDescriptions d = [] ->
        lb_InstancePort (lbOfDescription d ts) = 0%Z /\
        lb_SSLCert (lbOfDescription d ts) = "")).
Proof.
  do 2 eexists. split; [vm_compute; reflexivity|].
  eapply (LoadBalancers_tag_filter unit example_dlb example_dtags 10 example_filter
           example_tagsOf tt tt).
  - intros names. reflexivity.
  - intros marker out Hout. destruct marker; injection Hout as <-;
      apply (bool_decide_unpack _); vm_compute; reflexivity.
  - vm_compute. reflexivity.
Defined.

Lemma taskDefinition_round_trip_witness :
  exists ri,
    taskDefinitionInput web_process = Ok ri /\
    exists q args,
      Parse (Command web_process) = Ok args /\
      taskDefinitionToProcess (registered ri (Some "arn:aws:ecs:task/web:1")) = Ok q /\
      Command q = String.concat " " args /\
      (forall ws, Forall plainWord ws -> Command web_process = String.concat " " ws ->
                  Command q = Command web_process) /\
      Env q = Env web_process /\
      CPUShares q = CPUShares web_process /\
      MemoryLimit q = (MemoryLimit web_process - MemoryLimit web_process mod MB)%Z /\
      (MemoryLimit q = MemoryLimit web_process <-> (MemoryLimit web_process mod MB = 0)%Z).
Proof.
  eexists. split; [vm_compute; reflexivity|].
  apply (taskDefinition_round_trip web_process _ (Some "arn:aws:ecs:task/web:1")).
  - vm_compute. split; [discriminate|reflexivity].
  - vm_compute. split; [discriminate|reflexivity].
  - vm_compute. reflexivity.
Defined.

(* ================================================================== *)
(** * Further properties of the ELB manager *)

Section ElbTagLemmas.

Local Arguments String.append : simpl nomatch.

Lemma tags_fold (l : list (string * string)) (m : gmap string string) :
  NoDup l.*1 ->
  foldl (fun m t => <[Key t := Value t]> m) m
        (map (fun kv : string * string => elbTag kv.1 kv.2) l)
  = list_to_map l ∪ m.
Proof.
  revert m. induction l as [|[k v] l IH]; intros m Hnd; simpl.
  - by rewrite (left_id_L ∅ (∪)).
  - apply NoDup_cons in Hnd as [Hk Hnd]. simpl in Hk.
    rewrite IH by done.
    rewrite <- insert_union_l, insert_union_r; [done|].
    by apply not_elem_of_list_to_map_1.
Qed.

Lemma mapTags_elbTags_id (m : gmap string string) : mapTags (elbTags m) = m.
Proof.
  unfold mapTags, elbTags.
  rewrite tags_fold by apply NoDup_fst_map_to_list.
  by rewrite list_to_map_to_list, (right_id_L ∅ (∪)).
Qed.

Lemma elem_of_elbTags (b : gmap string string) (t : Tag) :
  t ∈ elbTags b <-> b !! Key t = Some (Value t).
Proof.
  unfold elbTags. rewrite list_elem_of_fmap. split.
  - intros ([k v] & -> & Hin). by apply elem_of_map_to_list in Hin.
  - intros H. exists (Key t, Value t). split; [by destruct t|].
    by apply elem_of_map_to_list.
Qed.

Lemma substring_full (s : string) (n : nat) :
  String.length s <= n -> String.substring 0 n s = s.
Proof.
  revert n. induction s as [|c s IH]; intros n Hn; destruct n; simpl in *;
    try done; [lia|]. rewrite IH; [done|lia].
Qed.

Lemma prefix_dash (c : ascii) (s : string) :
  String.prefix "-" (String c s) = Ascii.eqb c "-"%char.
Proof.
  destruct (Ascii.eqb_spec c "-"%char) as [->|Hc].
  - simpl. by destruct s.
  - cbn [String.prefix]. destruct (ascii_dec "-"%char c); [congruence|done].
Qed.

Lemma replaceFrom_dash (s : string) (fuel : nat) :
  String.length s <= fuel ->
  String.list_ascii_of_string (replaceFrom fuel "-" "" s) =
  List.filter (fun c => negb (Ascii.eqb c "-"%char)) (String.list_ascii_of_string s).
Proof.
  revert fuel. induction s as [|c s IH]; intros fuel Hf.
  - destruct fuel; done.
  - destruct fuel as [|fuel]; simpl in Hf; [lia|].
    cbn [replaceFrom]. rewrite prefix_dash.
    destruct (Ascii.eqb_spec c "-"%char) as [->|Hc].
    + simpl. rewrite substring_full by lia. apply IH. lia.
    + simpl. apply Ascii.eqb_neq in Hc. rewrite Hc. simpl.
      f_equal. apply IH. lia.
Qed.

End ElbTagLemmas.

(** mapTags inverts elbTags: converting a tag map to ELB tags and back
    gives the same map. *)
Theorem mapTags_elbTags (m : gmap string string) : mapTags (elbTags m) = m.
Proof. apply mapTags_elbTags_id. Qed.

(** A tag filter accepts the ELB tags made from a tag map exactly when the
    filter is contained in that map: a load balancer created with tags
    [b] is kept by LoadBalancers for the filter [a] iff a ⊆ b. *)
Theorem containsTags_elbTags (a b : gmap string string) :
  containsTags a (elbTags b) = true <-> a ⊆ b.
Proof.
  rewrite containsTags_spec, map_subseteq_spec. split.
  - intros H k v Hkv. destruct (H k v Hkv) as (t & Ht & <- & <-).
    by apply elem_of_elbTags.
  - intros H k v Hkv. exists (elbTag k v). split; [|done].
    apply elem_of_elbTags. simpl. by apply H.
Qed.

(** Reading back a load balancer created by CreateLoadBalancer: from the
    description ELB gives of it (the name, scheme and listeners of the
    create call) and the tags of the create call, LoadBalancers builds a
    load balancer with the created name, the DNS name, and the External,
    SSLCert, InstancePort and Tags of the options it was created with. *)
Theorem lbOfDescription_createInput (m : ELBManager) (o : CreateLoadBalancerOpts)
    (name dnsName : string) :
  lbOfDescription (describedAs (createInput m o name) dnsName)
                  (clb_Tags (createInput m o name))
  = {| lb_Name := name; lb_DNSName := dnsName; lb_External := o_External o;
       lb_SSLCert := o_SSLCert o; lb_InstancePort := o_InstancePort o;
       lb_Tags := o_Tags o |}.
Proof.
  assert (Ht : mapTags (clb_Tags (createInput m o name)) = o_Tags o).
  { unfold createInput. destruct (o_External o); apply mapTags_elbTags_id. }
  unfold lbOfDescription. rewrite Ht.
  unfold describedAs, createInput, elbListeners.
  destruct (o_External o), (String.eqb (o_SSLCert o) "") eqn:Hc; simpl;
    try (apply String.eqb_eq in Hc; rewrite Hc); reflexivity.
Qed.

(** newName removes every dash from the UUID it is given and keeps its
    other characters in order. *)
Theorem newName_no_dashes (uuid : string) :
  String.list_ascii_of_string (newName uuid) =
  List.filter (fun c => negb (Ascii.eqb c "-"%char)) (String.list_ascii_of_string uuid).
Proof.
  unfold newName, stringsReplaceAll. simpl.
  by apply replaceFrom_dash.
Qed.

(** When the create call and the attribute update both succeed,
    CreateLoadBalancer makes exactly these two calls, both for the name it
    generated, and returns a load balancer with that name, the DNS name of
    the create call, the External, SSLCert and InstancePort of the options,
    and no tags. *)
Theorem CreateLoadBalancer_success (W : Type) (newName : W -> W * string)
    (elb_CreateLoadBalancer : W -> CreateLoadBalancerInput -> W * result string)
    (elb_ModifyLoadBalancerAttributes :
       W -> ModifyLoadBalancerAttributesInput -> W * option error)
    (m : ELBManager) (o : CreateLoadBalancerOpts)
    (w w1 w2 w3 : W) (name dnsName : string)
    (Hname : newName w = (w1, name))
    (Hcreate : elb_CreateLoadBalancer w1 (createInput m o name) = (w2, Ok dnsName))
    (Hmodify : elb_ModifyLoadBalancerAttributes w2 (attributesInput name) = (w3, None)) :
  CreateLoadBalancer W newName elb_CreateLoadBalancer elb_ModifyLoadBalancerAttributes m o w
  = (w3, [ELBCreateLoadBalancer (createInput m o name);
          ELBModifyLoadBalancerAttributes (attributesInput name)],
     (Some {| lb_Name := name; lb_DNSName := dnsName; lb_External := o_External o;
              lb_SSLCert := o_SSLCert o; lb_InstancePort := o_InstancePort o;
              lb_Tags := ∅ |}, None)).
Proof.
  unfold CreateLoadBalancer, bind, call, ret.
  rewrite Hname. cbn. rewrite Hcreate. cbn. rewrite Hmodify. reflexivity.
Qed.

(** When the create call fails, CreateLoadBalancer returns its error and
    no load balancer, and never calls ModifyLoadBalancerAttributes. *)
Theorem CreateLoadBalancer_create_error (W : Type) (newName : W -> W * string)
    (elb_CreateLoadBalancer : W -> CreateLoadBalancerInput -> W * result string)
    (elb_ModifyLoadBalancerAttributes :
       W -> ModifyLoadBalancerAttributesInput -> W * option error)
    (m : ELBManager) (o : CreateLoadBalancerOpts)
    (w w1 w2 : W) (name : string) (e : error)
    (Hname : newName w = (w1, name))
    (Hcreate : elb_CreateLoadBalancer w1 (createInput m o name) = (w2, Err e)) :
  CreateLoadBalancer W newName elb_CreateLoadBalancer elb_ModifyLoadBalancerAttributes m o w
  = (w2, [ELBCreateLoadBalancer (createInput m o name)], (None, Some e)).
Proof.
  unfold CreateLoadBalancer, bind, call, ret.
  rewrite Hname. cbn. rewrite Hcreate. reflexivity.
Qed.

(** The loop over the tag descriptions of a page dereferences a nil
    description exactly when DescribeTags returns a tag description that
    passes the filter but names no load balancer of the page. *)
Theorem appendMatching_nil_deref (tags : gmap string string)
    (descs : gmap string LoadBalancerDescription) (tds : list TagDescription)
    (lbs : list LoadBalancer_) :
  appendMatching tags descs tds lbs = None <->
  exists td, td ∈ tds /\ containsTags tags (tdesc_Tags td) = true /\
             descs !! tdesc_LoadBalancerName td = None.
Proof.
  revert lbs. induction tds as [|d tds IH]; intros lbs; simpl.
  - split; [done|]. intros (td & Htd & _). by apply elem_of_nil in Htd.
  - destruct (containsTags tags (tdesc_Tags d)) eqn:Hc.
    + destruct (descs !! tdesc_LoadBalancerName d) as [elb|] eqn:Hd.
      * rewrite IH. split.
        -- intros (td & Htd & H1 & H2). exists td. split; [by apply elem_of_cons; right|done].
        -- intros (td & Htd & H1 & H2). apply elem_of_cons in Htd as [->|Htd]; [congruence|].
           by exists td.
      * split; [|done]. intros _. exists d. split; [by apply elem_of_cons; left|done].
    + rewrite IH. split.
      * intros (td & Htd & H1 & H2). exists td. split; [by apply elem_of_cons; right|done].
      * intros (td & Htd & H1 & H2). apply elem_of_cons in Htd as [->|Htd]; [congruence|].
        by exists td.
Qed.

Section LoadBalancersErrors.

Variable W : Type.
Variable dlb : W -> DescribeLoadBalancersInput -> result DescribeLoadBalancersOutput.
Variable dtags : W -> list string -> result (list TagDescription).
Variable tags : gmap string string.
Variable w : W.

Lemma lbLoop_error : forall fuel marker acc w' log lbs e,
  lbLoop W dlb dtags fuel tags marker acc w = (w', log, Some (lbs, Some e)) ->
  w' = w /\
  exists outs rs marker',
    page_chain dlb w marker outs marker' /\
    Forall2 (page_contrib dtags w tags) outs rs /\
    ((dlb w (pageInput marker') = Err e /\ lbs = [] /\
      log = app (pages_log marker outs) [ELBDescribeLoadBalancers (pageInput marker')]) \/
     (exists out, dlb w (pageInput marker') = Ok out /\
        LoadBalancerDescriptions out <> [] /\
        dtags w (page_names out) = Err e /\
        lbs = app acc (concat rs) /\
        log = app (pages_log marker outs)
                  [ELBDescribeLoadBalancers (pageInput marker');
                   ELBDescribeTags (page_names out)])).
Proof.
  induction fuel as [|fuel IH]; intros marker acc w' log lbs e Hrun;
    [cbv [lbLoop ret] in Hrun; congruence|].
  cbn [lbLoop] in Hrun. unfold bind, read, call, ret in Hrun.
  destruct (dlb w (pageInput marker)) as [out|e'] eqn:Hout.
  2:{ injection Hrun as <- <- <- <-. split; [done|].
      exists [], [], marker. split; [constructor|]. split; [constructor|].
      left. done. }
  destruct (Nat.eqb (length (LoadBalancerDescriptions out)) 0) eqn:Hlen;
    [congruence|].
  assert (Hne : LoadBalancerDescriptions out <> []).
  { intros E. rewrite E in Hlen. discriminate. }
  destruct (dtags w (map d_LoadBalancerName (LoadBalancerDescriptions out)))
    as [tds|e'] eqn:Htd.
  2:{ injection Hrun as <- <- <- <-. split; [done|].
      exists [], [], marker. split; [constructor|]. split; [constructor|].
      right. exists out. simpl. rewrite app_nil_r. done. }
  destruct (appendMatching tags
              (foldl (fun m d => <[d_LoadBalancerName d := d]> m) ∅
                     (LoadBalancerDescriptions out)) tds acc) as [acc'|] eqn:Happ;
    [|congruence].
  rewrite appendMatching_app in Happ.
  destruct (appendMatching tags
              (foldl (fun m d => <[d_LoadBalancerName d := d]> m) ∅
                     (LoadBalancerDescriptions out)) tds []) as [r|] eqn:Hr;
    simpl in Happ; [|congruence]. injection Happ as <-.
  assert (Hc : page_contrib dtags w tags out r).
  { right. split; [done|]. exists tds. by split. }
  assert (Hlog : forall l, pages_log marker (out :: l) =
            ELBDescribeLoadBalancers (pageInput marker) ::
            ELBDescribeTags (page_names out) :: pages_log (NextMarker out) l).
  { intros l. simpl. destruct (LoadBalancerDescriptions out); done. }
  destruct (NextMarker out) as [m|] eqn:Hnm; [|congruence].
  destruct (String.eqb m "") eqn:Hm; [congruence|].
  destruct (lbLoop W dlb dtags fuel tags (Some m) (app acc r) w)
    as [[w2 log2] res2] eqn:Hrec.
  injection Hrun as <- <- ->.
  rewrite <- Hnm in Hrec.
  destruct (IH _ _ _ _ _ _ Hrec)
    as [-> (outs & rs & marker' & Hch & Hrs & Hcase)].
  split; [done|]. exists (out :: outs), (r :: rs), marker'.
  split; [apply chain_cons; [done|done| |done]; by rewrite Hnm|].
  split; [by constructor|].
  rewrite Hlog. rewrite Hnm in Hcase.
  destruct Hcase as [(H1 & H2 & ->)|(out' & H1 & H2 & H3 & -> & ->)].
  - left. done.
  - right. exists out'. simpl. rewrite <- app_assoc. done.
Qed.

End LoadBalancersErrors.

(** When LoadBalancers fails, it has walked a chain of non-empty pages,
    each with a non-empty marker, up to the request that failed.  If the
    failing call is a DescribeLoadBalancers page request, the result is
    empty: the load balancers of the earlier pages are dropped.  If it is
    the DescribeTags call of a non-empty page, the load balancers gathered
    from the earlier pages are returned with the error. *)
Theorem LoadBalancers_errors (W : Type)
    (dlb : W -> DescribeLoadBalancersInput -> result DescribeLoadBalancersOutput)
    (dtags : W -> list string -> result (list TagDescription))
    (fuel : nat) (tags : gmap string string) (w w' : W)
    (log : list elb_call) (lbs : list LoadBalancer_) (e : error)
    (Hrun : LoadBalancers W dlb dtags fuel tags w = (w', log, Some (lbs, Some e))) :
  w' = w /\
  exists outs rs marker,
    page_chain dlb w None outs marker /\
    Forall2 (page_contrib dtags w tags) outs rs /\
    ((dlb w (pageInput marker) = Err e /\ lbs = [] /\
      log = app (pages_log None outs) [ELBDescribeLoadBalancers (pageInput marker)]) \/
     (exists out, dlb w (pageInput marker) = Ok out /\
        LoadBalancerDescriptions out <> [] /\
        dtags w (page_names out) = Err e /\
        lbs = concat rs /\
        log = app (pages_log None outs)
                  [ELBDescribeLoadBalancers (pageInput marker);
                   ELBDescribeTags (page_names out)])).
Proof.
  exact (lbLoop_error W dlb dtags tags w fuel None [] w' log lbs e Hrun).
Qed.

(* ================================================================== *)
(** * Further properties of the ECS process manager *)

Ltac unfold_create :=
  cbv [ecsCreateProcess createTaskDefinition updateCreateService updateService
       createService bind call ret option_map].

(** If the command of a process does not parse, CreateProcess returns the
    parse error without any call to ECS. *)
Theorem ecsCreateProcess_parse_error (E : Type)
    (reg : E -> string -> RegisterTaskDefinitionInput -> E * option error)
    (upd : E -> string -> UpdateServiceInput -> E * (option Service * option error))
    (create : E -> string -> CreateServiceInput -> E * (option Service * option error))
    (m : ecsProcessManager) (app : App) (p : Process) (e : error) (w : E)
    (Hin : taskDefinitionInput p = Err e) :
  ecsCreateProcess E reg upd create m app p w = (w, [], Some (Some e)).
Proof. unfold_create. rewrite Hin. reflexivity. Qed.

(** If registering the task definition fails, CreateProcess returns that
    error and makes no service call. *)
Theorem ecsCreateProcess_register_error (E : Type)
    (reg : E -> string -> RegisterTaskDefinitionInput -> E * option error)
    (upd : E -> string -> UpdateServiceInput -> E * (option Service * option error))
    (create : E -> string -> CreateServiceInput -> E * (option Service * option error))
    (m : ecsProcessManager) (app : App) (p : Process) (ri : RegisterTaskDefinitionInput)
    (e : error) (w w1 : E)
    (Hin : taskDefinitionInput p = Ok ri)
    (Hreg : reg w (ID app) ri = (w1, Some e)) :
  ecsCreateProcess E reg upd create m app p w
  = (w1, [ReqRegisterAppTaskDefinition (ID app) ri], Some (Some e)).
Proof. unfold_create. rewrite Hin, Hreg. reflexivity. Qed.

(** After the task definition is registered, CreateProcess updates the
    service named after the process type (desired count int64(Instances),
    task definition the process type).  If the update returns a service,
    or an error that does not say the service is missing, CreateProcess
    stops there and returns the update's error: it never creates a
    service then. *)
Theorem ecsCreateProcess_update_found (E : Type)
    (reg : E -> string -> RegisterTaskDefinitionInput -> E * option error)
    (upd : E -> string -> UpdateServiceInput -> E * (option Service * option error))
    (create : E -> string -> CreateServiceInput -> E * (option Service * option error))
    (m : ecsProcessManager) (app : App) (p : Process) (ri : RegisterTaskDefinitionInput)
    (w w1 w2 : E) (s : option Service) (err : option error)
    (Hin : taskDefinitionInput p = Ok ri)
    (Hreg : reg w (ID app) ri = (w1, None))
    (Hupd : upd w1 (ID app) (updateInput m p) = (w2, (s, err)))
    (Hns : noService err = false)
    (Hfound : err <> None \/ s <> None) :
  ecsCreateProcess E reg upd create m app p w
  = (w2, [ReqRegisterAppTaskDefinition (ID app) ri;
          ReqUpdateAppService (ID app) (updateInput m p)], Some err).
Proof.
  unfold_create. rewrite Hin, Hreg. cbv beta iota zeta. rewrite Hupd, Hns.
  destruct err as [e|], s as [sv|]; try reflexivity.
  destruct Hfound; congruence.
Qed.

(** If the update reports that the service is missing (a not-found error,
    or no service and no error), CreateProcess creates the service with
    createServiceInput and returns the create call's error; the create
    input attaches the process's load balancer and the service role only
    when the process has a load balancer. *)
Theorem ecsCreateProcess_update_missing (E : Type)
    (reg : E -> string -> RegisterTaskDefinitionInput -> E * option error)
    (upd : E -> string -> UpdateServiceInput -> E * (option Service * option error))
    (create : E -> string -> CreateServiceInput -> E * (option Service * option error))
    (m : ecsProcessManager) (app : App) (p : Process) (ri : RegisterTaskDefinitionInput)
    (w w1 w2 : E) (s : option Service) (err : option error) (input : CreateServiceInput)
    (Hin : taskDefinitionInput p = Ok ri)
    (Hreg : reg w (ID app) ri = (w1, None))
    (Hupd : upd w1 (ID app) (updateInput m p) = (w2, (s, err)))
    (Hmissing : noService err = true \/ (s = None /\ err = None))
    (Hcsi : createServiceInput m p = Some input) :
  ecsCreateProcess E reg upd create m app p w
  = (fst (create w2 (ID app) input),
     [ReqRegisterAppTaskDefinition (ID app) ri;
      ReqUpdateAppService (ID app) (updateInput m p);
      ReqCreateAppService (ID app) input],
     Some (snd (snd (create w2 (ID app) input)))) /\
  (LoadBalancer p = "" -> csi_LoadBalancers input = [] /\ csi_Role input = None) /\
  (LoadBalancer p <> "" ->
     exists pm0 rest, Ports p = pm0 :: rest /\
       csi_LoadBalancers input =
         [{| elbc_ContainerName := Some (Type_ p); elbc_ContainerPort := Container pm0;
             elbc_LoadBalancerName := Some (LoadBalancer p) |}] /\
       csi_Role input = Some (serviceRole m)).
Proof.
  split; [|split].
  - unfold_create. rewrite Hin, Hreg. cbv beta iota zeta. rewrite Hupd.
    destruct Hmissing as [Hns|[-> ->]]; [rewrite Hns|]; cbn -[createServiceInput];
      rewrite Hcsi; cbn; destruct (create w2 (ID app) input) as [w3 [s3 e3]]; reflexivity.
  - intros Hlb. unfold createServiceInput in Hcsi. rewrite Hlb in Hcsi.
    simpl in Hcsi. injection Hcsi as <-. done.
  - intros Hlb. unfold createServiceInput in Hcsi.
    apply String.eqb_neq in Hlb. rewrite Hlb in Hcsi. simpl in Hcsi.
    destruct (Ports p) as [|pm0 rest]; [discriminate|].
    injection Hcsi as <-. by exists pm0, rest.
Qed.

(** A process with a load balancer but no ports makes CreateProcess index
    p.Ports[0] out of range (a panic) once the update has found no
    service, before any create call. *)
Theorem ecsCreateProcess_no_ports_panic (E : Type)
    (reg : E -> string -> RegisterTaskDefinitionInput -> E * option error)
    (upd : E -> string -> UpdateServiceInput -> E * (option Service * option error))
    (create : E -> string -> CreateServiceInput -> E * (option Service * option error))
    (m : ecsProcessManager) (app : App) (p : Process) (ri : RegisterTaskDefinitionInput)
    (w w1 w2 : E) (s : option Service) (err : option error)
    (Hlb : LoadBalancer p <> "") (Hports : Ports p = [])
    (Hin : taskDefinitionInput p = Ok ri)
    (Hreg : reg w (ID app) ri = (w1, None))
    (Hupd : upd w1 (ID app) (updateInput m p) = (w2, (s, err)))
    (Hmissing : noService err = true \/ (s = None /\ err = None)) :
  ecsCreateProcess E reg upd create m app p w
  = (w2, [ReqRegisterAppTaskDefinition (ID app) ri;
          ReqUpdateAppService (ID app) (updateInput m p)], None).
Proof.
  assert (Hcsi : createServiceInput m p = None).
  { unfold createServiceInput. apply String.eqb_neq in Hlb. rewrite Hlb, Hports. done. }
  unfold_create. rewrite Hin, Hreg. cbv beta iota zeta. rewrite Hupd.
  destruct Hmissing as [Hns|[-> ->]]; [rewrite Hns|]; cbn -[createServiceInput];
    rewrite Hcsi; reflexivity.
Qed.

Section ProcessesProofs.

Variable E : Type.
Variable dtd : E -> option string -> result TaskDefinition.

Lemma describeServices_run (ss : list Service) (acc : list Process) (w : E) :
  let '(w', log, (ps, r)) := describeServices E dtd ss acc w in
  w' = w /\
  exists k tds pk,
    Forall2 (fun s td => dtd w (srv_TaskDefinition s) = Ok td) (take k ss) tds /\
    Forall2 (fun td p => taskDefinitionToProcess td = Ok p) tds pk /\
    ps = app acc pk /\
    ((r = None /\ k = length ss /\
      log = map (fun s => ReqDescribeTaskDefinition (srv_TaskDefinition s)) ss) \/
     (exists e s, r = Some e /\ ss !! k = Some s /\
        log = map (fun s => ReqDescribeTaskDefinition (srv_TaskDefinition s)) (take (S k) ss) /\
        (dtd w (srv_TaskDefinition s) = Err e \/
         exists td, dtd w (srv_TaskDefinition s) = Ok td /\
                    taskDefinitionToProcess td = Err e))).
Proof.
  revert acc. induction ss as [|s ss IH]; intros acc; simpl.
  - split; [done|]. exists 0, [], []. rewrite app_nil_r.
    split; [constructor|]. split; [constructor|]. split; [done|]. by left.
  - unfold bind, ecs_read, call, ret.
    destruct (dtd w (srv_TaskDefinition s)) as [td|e] eqn:Hd.
    2:{ split; [done|]. exists 0, [], []. rewrite app_nil_r.
        split; [constructor|]. split; [constructor|]. split; [done|].
        right. exists e, s. split; [done|]. split; [done|]. split; [done|]. by left. }
    destruct (taskDefinitionToProcess td) as [p|e] eqn:Ht.
    2:{ split; [done|]. exists 0, [], []. rewrite app_nil_r.
        split; [constructor|]. split; [constructor|]. split; [done|].
        right. exists e, s. split; [done|]. split; [done|]. split; [done|].
        right. by exists td. }
    specialize (IH (app acc [p])).
    destruct (describeServices E dtd ss (app acc [p]) w) as [[w' log] [ps r]].
    destruct IH as [-> (k & tds & pk & Htd & Hpk & -> & Hcase)].
    split; [done|]. exists (S k), (td :: tds), (p :: pk).
    split; [by constructor|]. split; [by constructor|].
    split; [by rewrite <- app_assoc|].
    destruct Hcase as [(-> & -> & ->)|(e & s' & -> & Hs & -> & Hf)].
    + left. done.
    + right. exists e, s'. done.
Qed.

End ProcessesProofs.

(** When ecsProcessManager.Processes succeeds, it has listed the app's
    services in the manager's cluster.  If there are none it makes no
    other call and returns no process.  Otherwise it describes those
    services and returns, in order, one process per service: the task
    definition of that service converted by taskDefinitionToProcess. *)
Theorem ecsProcesses_success (E : Type)
    (las : E -> string -> option string -> result (list string))
    (ds : E -> option string -> list string -> result (list Service))
    (dtd : E -> option string -> result TaskDefinition)
    (m : ecsProcessManager) (appID : string) (w w' : E)
    (log : list ecs_req) (ps : list Process)
    (Hrun : ecsProcesses E las ds dtd m appID w = (w', log, (ps, None))) :
  w' = w /\
  exists arns, las w appID (Some (cluster m)) = Ok arns /\
  ((arns = [] /\ ps = [] /\ log = [ReqListAppServices appID (Some (cluster m))]) \/
   (arns <> [] /\ exists services tds,
      ds w (Some (cluster m)) arns = Ok services /\
      Forall2 (fun s td => dtd w (srv_TaskDefinition s) = Ok td) services tds /\
      Forall2 (fun td p => taskDefinitionToProcess td = Ok p) tds ps /\
      log = ReqListAppServices appID (Some (cluster m)) ::
            ReqDescribeServices (Some (cluster m)) arns ::
            map (fun s => ReqDescribeTaskDefinition (srv_TaskDefinition s)) services)).
Proof.
  revert Hrun. unfold ecsProcesses, bind, ecs_read, call, ret.
  destruct (las w appID (Some (cluster m))) as [arns|e] eqn:Hl; [|congruence].
  intros Hrun.
  destruct (Nat.eqb (length arns) 0) eqn:Hlen.
  { apply Nat.eqb_eq, length_zero_iff_nil in Hlen. subst arns.
    injection Hrun as <- <- <-. split; [done|]. exists []. split; [done|]. by left. }
  destruct (ds w (Some (cluster m)) arns) as [services|e] eqn:Hds; [|congruence].
  pose proof (describeServices_run E dtd services [] w) as Hd.
  destruct (describeServices E dtd services [] w) as [[w2 log2] [ps2 r2]].
  injection Hrun as <- <- <- ->.
  destruct Hd as [-> (k & tds & pk & Htd & Hpk & -> & Hcase)].
  split; [done|]. exists arns. split; [done|]. right. split.
  { intros ->. discriminate. }
  destruct Hcase as [(_ & -> & ->)|(e & s & [=] & _)].
  rewrite firstn_all in Htd. exists services, tds. done.
Qed.

(** When ecsProcessManager.Processes fails while listing or describing
    the services, it returns no process; when it fails on the task
    definition of a service (the describe call or the conversion fails),
    it returns the processes of the services before that one, with the
    error. *)
Theorem ecsProcesses_error (E : Type)
    (las : E -> string -> option string -> result (list string))
    (ds : E -> option string -> list string -> result (list Service))
    (dtd : E -> option string -> result TaskDefinition)
    (m : ecsProcessManager) (appID : string) (w w' : E)
    (log : list ecs_req) (ps : list Process) (e : error)
    (Hrun : ecsProcesses E las ds dtd m appID w = (w', log, (ps, Some e))) :
  w' = w /\
  ((ps = [] /\
    (las w appID (Some (cluster m)) = Err e \/
     exists arns, las w appID (Some (cluster m)) = Ok arns /\ arns <> [] /\
                  ds w (Some (cluster m)) arns = Err e)) \/
   (exists arns services k s tds,
      las w appID (Some (cluster m)) = Ok arns /\ arns <> [] /\
      ds w (Some (cluster m)) arns = Ok services /\
      services !! k = Some s /\
      Forall2 (fun s td => dtd w (srv_TaskDefinition s) = Ok td) (take k services) tds /\
      Forall2 (fun td p => taskDefinitionToProcess td = Ok p) tds ps /\
      (dtd w (srv_TaskDefinition s) = Err e \/
       exists td, dtd w (srv_TaskDefinition s) = Ok td /\
                  taskDefinitionToProcess td = Err e))).
Proof.
  revert Hrun. unfold ecsProcesses, bind, ecs_read, call, ret.
  destruct (las w appID (Some (cluster m))) as [arns|e'] eqn:Hl.
  2:{ intros Hrun. injection Hrun as <- <- <- <-. split; [done|]. by left; split; [|left]. }
  intros Hrun.
  destruct (Nat.eqb (length arns) 0) eqn:Hlen; [congruence|].
  assert (Hne : arns <> []) by (intros ->; discriminate).
  destruct (ds w (Some (cluster m)) arns) as [services|e'] eqn:Hds.
  2:{ injection Hrun as <- <- <- <-. split; [done|]. left. split; [done|].
      right. by exists arns. }
  pose proof (describeServices_run E dtd services [] w) as Hd.
  destruct (describeServices E dtd services [] w) as [[w2 log2] [ps2 r2]].
  injection Hrun as <- <- <- ->.
  destruct Hd as [-> (k & tds & pk & Htd & Hpk & -> & Hcase)].
  split; [done|]. right.
  destruct Hcase as [([=] & _)|(e' & s & [= ->] & Hs & _ & Hf)].
  exists arns, services, k, s, tds. done.
Qed.

Section InstancesProofs.

Variable E : Type.
Variable dtd : E -> option string -> result TaskDefinition.
Variable ResourceID : string -> result string.
Variable Now : E -> E * Z.
Hypothesis Hdtd : forall w1 w2 a, dtd w1 a = dtd w2 a.

(** What an instance reports about the task it was built from. *)
Definition instance_of_task (w0 : E) (t : Task) (i : Instance) : Prop :=
  exists td, dtd w0 (task_TaskDefinitionArn t) = Ok td /\
    taskDefinitionToProcess td = Ok (inst_Process i) /\
    ResourceID (task_TaskArn t) = Ok (inst_ID i) /\
    inst_State i = safeString (task_LastStatus t).

Lemma instancesOf_run (w0 : E) (ts : list Task) (acc : list Instance) (w : E) :
  match instancesOf E dtd ResourceID Now ts acc w with
  | (w', log, (is, None)) =>
      log = map (fun t => ReqDescribeTaskDefinition (task_TaskDefinitionArn t)) ts /\
      exists isk, is = app acc isk /\ Forall2 (instance_of_task w0) ts isk /\
        (w', map inst_UpdatedAt isk) = clockReads Now (length ts) w
  | _ => True
  end.
Proof.
  revert acc w. induction ts as [|t ts IH]; intros acc w; simpl.
  - split; [done|]. exists []. rewrite app_nil_r. split; [done|]. by split.
  - unfold bind, ecs_read, call, ret.
    destruct (dtd w (task_TaskDefinitionArn t)) as [td|e] eqn:Hd; [|done].
    destruct (ResourceID (task_TaskArn t)) as [id|e] eqn:Hid; [|done].
    destruct (taskDefinitionToProcess td) as [p|e] eqn:Hp; [|done].
    destruct (Now w) as [w1 now] eqn:Hnow.
    set (i := {| inst_Process := p; inst_State := safeString (task_LastStatus t);
                 inst_ID := id; inst_UpdatedAt := now |}).
    specialize (IH (app acc [i]) w1).
    destruct (instancesOf E dtd ResourceID Now ts (app acc [i]) w1)
      as [[w' log] [is [e|]]]; [done|].
    destruct IH as [-> (isk & -> & Hf & Hclk)].
    split; [done|]. exists (i :: isk). split; [by rewrite <- app_assoc|].
    split.
    + constructor; [|done]. exists td. rewrite (Hdtd w0 w). done.
    + cbn [clockReads length].
      destruct (clockReads Now (length ts) w1) as [w2 tms].
      injection Hclk as <- <-. done.
Qed.

End InstancesProofs.

(** When Scheduler.Instances succeeds, it has listed the app's tasks in
    the scheduler's cluster.  If there are none it returns no instance.
    Otherwise it returns one instance per described task, in order.  The
    instance carries the process converted from the task's task
    definition, the task's last status (empty when missing) and the
    resource ID of the task's ARN.  Its UpdatedAt is the clock read once
    per task, in order.  This holds when describing a task definition
    does not depend on the clock. *)
Theorem SchedulerInstances_success (E : Type)
    (dtd : E -> option string -> result TaskDefinition)
    (lat : E -> string -> option string -> result (list string))
    (dts : E -> option string -> list string -> list Task * option error)
    (ResourceID : string -> result string) (Now : E -> E * Z)
    (Hdtd : forall w1 w2 a, dtd w1 a = dtd w2 a)
    (cl appID : string) (w w' : E) (log : list ecs_req) (is : list Instance)
    (Hrun : SchedulerInstances E dtd lat dts ResourceID Now cl appID w
            = (w', log, (is, None))) :
  exists arns, lat w appID (Some cl) = Ok arns /\
  ((arns = [] /\ is = [] /\ w' = w /\ log = [ReqListAppTasks appID (Some cl)]) \/
   (arns <> [] /\ exists tasks,
      dts w (Some cl) arns = (tasks, None) /\
      Forall2 (instance_of_task E dtd ResourceID w) tasks is /\
      (w', map inst_UpdatedAt is) = clockReads Now (length tasks) w /\
      log = ReqListAppTasks appID (Some cl) :: ReqDescribeTasks (Some cl) arns ::
            map (fun t => ReqDescribeTaskDefinition (task_TaskDefinitionArn t)) tasks)).
Proof.
  revert Hrun. unfold SchedulerInstances, describeAppTasks, bind, ecs_read, call, ret.
  destruct (lat w appID (Some cl)) as [arns|e] eqn:Hl; [|congruence].
  intros Hrun. exists arns. split; [done|].
  destruct (Nat.eqb (length arns) 0) eqn:Hlen.
  { apply Nat.eqb_eq, length_zero_iff_nil in Hlen. subst arns.
    cbn in Hrun. injection Hrun as <- <- <-. by left. }
  right. split; [intros ->; discriminate|].
  destruct (dts w (Some cl) arns) as [tasks [e|]] eqn:Hdts; [congruence|].
  pose proof (instancesOf_run E dtd ResourceID Now Hdtd w tasks [] w) as Hi.
  destruct (instancesOf E dtd ResourceID Now tasks [] w) as [[w2 log2] [is2 [e|]]];
    [congruence|].
  injection Hrun as <- <- <-.
  destruct Hi as [-> (isk & -> & Hf & Hclk)].
  exists tasks. done.
Qed.

Lemma map_fst_map_to_list_spec (types : gmap string unit) :
  NoDup (map fst (map_to_list types)) /\
  (forall t, t ∈ map fst (map_to_list types) <-> is_Some (types !! t)).
Proof.
  assert (Hm : map fst (map_to_list types) = fst <$> map_to_list types).
  { induction (map_to_list types) as [|x l IH]; simpl; [done|]. by rewrite IH. }
  rewrite Hm. split; [apply NoDup_fst_map_to_list|].
  intros t. rewrite list_elem_of_fmap. split.
  - intros [[t' u] [-> Hin]]. apply elem_of_map_to_list in Hin. by eexists.
  - intros [u Hu]. exists (t, u). split; [done|]. by apply elem_of_map_to_list.
Qed.

(** Scheduler.Remove first lists the app's processes.  If the listing
    fails it returns that error and removes nothing.  Otherwise it calls
    RemoveProcess on the distinct process types of the listing, once each
    and on no other type, in the states of the actual run: either every
    call succeeds and it returns no error, or the calls before one type
    succeed, the call on that type fails, no later call is made, and that
    call's error is returned. *)
Theorem Remove_calls (S : Type)
    (pm_Processes : S -> string -> S * (list Process * option error))
    (pm_RemoveProcess : S -> string -> string -> S * option error)
    (appID : string) (s : S) :
  let '(s_end, log, r) := Remove S pm_Processes pm_RemoveProcess appID s in
  let '(s1, (procs, perr)) := pm_Processes s appID in
  match perr with
  | Some e => s_end = s1 /\ log = [PMProcesses appID] /\ r = Some e
  | None =>
      exists ts rems,
        NoDup ts /\ (forall t, t ∈ ts <-> exists p, p ∈ procs /\ Type_ p = t) /\
        log = PMProcesses appID :: map (PMRemoveProcess appID) rems /\
        loop_outcome (fun s t => pm_RemoveProcess s appID t) s1 ts s_end rems r
  end.
Proof.
  unfold Remove, listProcesses, bind, call, ret.
  destruct (pm_Processes s appID) as [s1 [procs [e|]]]; simpl; [done|].
  set (ts := map fst (map_to_list (processTypes procs))).
  pose proof (removeAll_run S pm_RemoveProcess appID ts s1) as Hr.
  destruct (removeAll S pm_RemoveProcess appID ts s1) as [[s2 log] r].
  destruct Hr as (rems & -> & Ho).
  destruct (map_fst_map_to_list_spec (processTypes procs)) as [Hnd Hin].
  exists ts, rems. split; [done|]. split; [|done].
  intros t. unfold ts. rewrite Hin. apply processTypes_lookup.
Qed.

Section EnvLookup.

Variable k : string.

Definition env_entry_for (kvp : option KeyValuePair) : option string :=
  match kvp with
  | Some kv => if String.eqb (safeString (kv_Name kv)) k
               then Some (safeString (kv_Value kv)) else None
  | None => None
  end.

Lemma last_cons_some {A} (y v : A) (l : list A) :
  last l = Some v -> last (y :: l) = Some v.
Proof. destruct l; [done|]. by simpl. Qed.

Lemma env_fold_lookup (l : list (option KeyValuePair)) (m : gmap string string) :
  foldl (fun env kvp =>
           match kvp with
           | Some kvp => <[safeString (kv_Name kvp) := safeString (kv_Value kvp)]> env
           | None => env
           end) m l !! k
  = match last (omap env_entry_for l) with Some v => Some v | None => m !! k end.
Proof.
  revert m. induction l as [|x l IH]; intros m; simpl; [done|].
  change (list_omap (option KeyValuePair) string env_entry_for l)
    with (omap env_entry_for l).
  rewrite IH.
  destruct (last (omap env_entry_for l)) as [v|] eqn:HL.
  - destruct (env_entry_for x); [|by rewrite HL]. by rewrite (last_cons_some _ v _ HL).
  - apply last_None in HL. rewrite HL.
    destruct x as [kv|]; simpl; [|done].
    destruct (String.eqb_spec (safeString (kv_Name kv)) k) as [<-|Hne]; simpl.
    + by rewrite lookup_insert_eq.
    + by rewrite lookup_insert_ne.
Qed.

End EnvLookup.

(** For a process the code registers, reading the registered task
    definition back gives the same Type, but no Image, Instances, Ports
    or LoadBalancer: the registered container carries the image and the
    port mappings, and taskDefinitionToProcess does not read them. *)
Theorem taskDefinition_round_trip_dropped (p : Process)
    (ri : RegisterTaskDefinitionInput) (arn : option string)
    (Hin : taskDefinitionInput p = Ok ri) :
  rtd_Family ri = Some (Type_ p) /\
  (exists c, rtd_ContainerDefinitions ri = [c] /\ cd_Image c = Some (Image p) /\
     cd_PortMappings c =
       map (fun m => {| pmap_HostPort := Host m; pmap_ContainerPort := Container m |})
           (Ports p)) /\
  exists q, taskDefinitionToProcess (registered ri arn) = Ok q /\
    Type_ q = Type_ p /\ Image q = "" /\ Instances q = 0%Z /\ Ports q = [] /\
    LoadBalancer q = "".
Proof.
  unfold taskDefinitionInput in Hin.
  destruct (Parse (Command p)) as [args|e]; [|discriminate].
  injection Hin as <-. split; [done|]. split.
  - eexists. split; [reflexivity|]. done.
  - eexists. split; [reflexivity|]. done.
Qed.

(** taskDefinitionToProcess reads only the first container definition.
    For each name, the process's Env holds the value of the last
    environment entry of that container with that name.  Nil entries are
    skipped, and a missing name or value is read as the empty string. *)
Theorem taskDefinitionToProcess_env_last (td : TaskDefinition)
    (c : ContainerDefinition) (rest : list ContainerDefinition)
    (Hc : td_ContainerDefinitions td = c :: rest) :
  exists q, taskDefinitionToProcess td = Ok q /\
    forall k, Env q !! k = last (omap (env_entry_for k) (cd_Environment c)).
Proof.
  unfold taskDefinitionToProcess. rewrite Hc.
  eexists. split; [reflexivity|]. intros k. simpl.
  rewrite env_fold_lookup. by destruct (last _).
Qed.

(* ------------------------------------------------------------------ *)
(** ** Instances of the further properties *)

Lemma CreateLoadBalancer_success_witness :
  CreateLoadBalancer nat (fun w => (S w, "lb1"))
    (fun w _ => (S w, Ok "lb1.elb.amazonaws.com")) (fun w _ => (S w, None))
    failing_attrs_manager failing_attrs_opts 0
  = (3, [ELBCreateLoadBalancer (createInput failing_attrs_manager failing_attrs_opts "lb1");
         ELBModifyLoadBalancerAttributes (attributesInput "lb1")],
     (Some {| lb_Name := "lb1"; lb_DNSName := "lb1.elb.amazonaws.com";
              lb_External := o_External failing_attrs_opts;
              lb_SSLCert := o_SSLCert failing_attrs_opts;
              lb_InstancePort := o_InstancePort failing_attrs_opts; lb_Tags := ∅ |}, None)).
Proof.
  apply (CreateLoadBalancer_success nat (fun w => (S w, "lb1"))
           (fun w _ => (S w, Ok "lb1.elb.amazonaws.com")) (fun w _ => (S w, None))
           failing_attrs_manager failing_attrs_opts 0 1 2 3 "lb1"
           "lb1.elb.amazonaws.com"); reflexivity.
Defined.

Lemma CreateLoadBalancer_create_error_witness :
  CreateLoadBalancer nat (fun w => (S w, "lb1"))
    (fun w _ => (S w, Err (AwsErr "DuplicateLoadBalancerName" "Load balancer exists")))
    (fun w _ => (S w, None))
    failing_attrs_manager failing_attrs_opts 0
  = (2, [ELBCreateLoadBalancer (createInput failing_attrs_manager failing_attrs_opts "lb1")],
     (None, Some (AwsErr "DuplicateLoadBalancerName" "Load balancer exists"))).
Proof.
  apply (CreateLoadBalancer_create_error nat (fun w => (S w, "lb1"))
           (fun w _ => (S w, Err (AwsErr "DuplicateLoadBalancerName" "Load balancer exists")))
           (fun w _ => (S w, None))
           failing_attrs_manager failing_attrs_opts 0 1 2 "lb1"
           (AwsErr "DuplicateLoadBalancerName" "Load balancer exists")); reflexivity.
Defined.

Lemma LoadBalancers_errors_witness :
  exists log lbs e,
    LoadBalancers unit example_dlb failing_dtags 10 example_filter tt
      = (tt, log, Some (lbs, Some e)) /\
    (tt = tt /\
     exists outs rs marker,
       page_chain example_dlb tt None outs marker /\
       Forall2 (page_contrib failing_dtags tt example_filter) outs rs /\
       ((example_dlb tt (pageInput marker) = Err e /\ lbs = [] /\
         log = app (pages_log None outs) [ELBDescribeLoadBalancers (pageInput marker)]) \/
        (exists out, example_dlb tt (pageInput marker) = Ok out /\
           LoadBalancerDescriptions out <> [] /\
           failing_dtags tt (page_names out) = Err e /\
           lbs = concat rs /\
           log = app (pages_log None outs)
                     [ELBDescribeLoadBalancers (pageInput marker);
                      ELBDescribeTags (page_names out)]))).
Proof.
  do 3 eexists. split; [vm_compute; reflexivity|].
  apply (LoadBalancers_errors unit example_dlb failing_dtags 10 example_filter tt tt).
  vm_compute. reflexivity.
Defined.

Lemma ecsCreateProcess_parse_error_witness :
  exists e, taskDefinitionInput bad_quote_process = Err e /\
    ecsCreateProcess nat ok_register found_update ok_create example_ecs_manager
      acme_app bad_quote_process 0 = (0, [], Some (Some e)).
Proof.
  eexists. split; [vm_compute; reflexivity|].
  apply (ecsCreateProcess_parse_error nat ok_register found_update ok_create
           example_ecs_manager acme_app bad_quote_process _ 0).
  vm_compute. reflexivity.
Defined.

Lemma ecsCreateProcess_register_error_witness :
  exists ri, taskDefinitionInput web_process = Ok ri /\
    ecsCreateProcess nat failing_register found_update ok_create example_ecs_manager
      acme_app web_process 0
    = (1, [ReqRegisterAppTaskDefinition "acme" ri], Some (Some invalid_image)).
Proof.
  eexists. split; [vm_compute; reflexivity|].
  apply (ecsCreateProcess_register_error nat failing_register found_update ok_create
           example_ecs_manager acme_app web_process _ invalid_image 0 1);
    [vm_compute; reflexivity|reflexivity].
Defined.

Lemma ecsCreateProcess_update_found_witness :
  exists ri, taskDefinitionInput web_process = Ok ri /\
    ecsCreateProcess nat ok_register found_update ok_create example_ecs_manager
      acme_app web_process 0
    = (2, [ReqRegisterAppTaskDefinition "acme" ri;
           ReqUpdateAppService "acme" (updateInput example_ecs_manager web_process)],
       Some None).
Proof.
  eexists. split; [vm_compute; reflexivity|].
  apply (ecsCreateProcess_update_found nat ok_register found_update ok_create
           example_ecs_manager acme_app web_process _ 0 1 2
           (Some {| srv_ServiceName := Some "web"; srv_TaskDefinition := Some "web" |})
           None).
  - vm_compute. reflexivity.
  - reflexivity.
  - reflexivity.
  - reflexivity.
  - right. discriminate.
Defined.

Lemma ecsCreateProcess_update_missing_witness :
  exists ri input,
    taskDefinitionInput lb_web_process = Ok ri /\
    createServiceInput example_ecs_manager lb_web_process = Some input /\
    (ecsCreateProcess nat ok_register missing_update ok_create example_ecs_manager
       acme_app lb_web_process 0
     = (fst (ok_create 2 "acme" input),
        [ReqRegisterAppTaskDefinition "acme" ri;
         ReqUpdateAppService "acme" (updateInput example_ecs_manager lb_web_process);
         ReqCreateAppService "acme" input],
        Some (snd (snd (ok_create 2 "acme" input)))) /\
     (LoadBalancer lb_web_process = "" ->
        csi_LoadBalancers input = [] /\ csi_Role input = None) /\
     (LoadBalancer lb_web_process <> "" ->
        exists pm0 rest, Ports lb_web_process = pm0 :: rest /\
          csi_LoadBalancers input =
            [{| elbc_ContainerName := Some (Type_ lb_web_process);
                elbc_ContainerPort := Container pm0;
                elbc_LoadBalancerName := Some (LoadBalancer lb_web_process) |}] /\
          csi_Role input = Some (serviceRole example_ecs_manager))).
Proof.
  do 2 eexists. split; [vm_compute; reflexivity|]. split; [vm_compute; reflexivity|].
  apply (ecsCreateProcess_update_missing nat ok_register missing_update ok_create
           example_ecs_manager acme_app lb_web_process _ 0 1 2 None
           (Some service_not_found)).
  - vm_compute. reflexivity.
  - reflexivity.
  - reflexivity.
  - left. vm_compute. reflexivity.
  - vm_compute. reflexivity.
Defined.

Lemma ecsCreateProcess_no_ports_panic_witness :
  exists ri, taskDefinitionInput lb_no_ports_process = Ok ri /\
    ecsCreateProcess nat ok_register missing_update ok_create example_ecs_manager
      acme_app lb_no_ports_process 0
    = (2, [ReqRegisterAppTaskDefinition "acme" ri;
           ReqUpdateAppService "acme" (updateInput example_ecs_manager lb_no_ports_process)],
       None).
Proof.
  eexists. split; [vm_compute; reflexivity|].
  apply (ecsCreateProcess_no_ports_panic nat ok_register missing_update ok_create
           example_ecs_manager acme_app lb_no_ports_process _ 0 1 2 None
           (Some service_not_found)).
  - discriminate.
  - reflexivity.
  - vm_compute. reflexivity.
  - reflexivity.
  - reflexivity.
  - left. vm_compute. reflexivity.
Defined.

Lemma ecsProcesses_success_witness :
  exists log ps,
    ecsProcesses unit example_las example_ds example_dtd example_ecs_manager "acme" tt
      = (tt, log, (ps, None)) /\
    (tt = tt /\
     exists arns, example_las tt "acme" (Some (cluster example_ecs_manager)) = Ok arns /\
     ((arns = [] /\ ps = [] /\
       log = [ReqListAppServices "acme" (Some (cluster example_ecs_manager))]) \/
      (arns <> [] /\ exists services tds,
         example_ds tt (Some (cluster example_ecs_manager)) arns = Ok services /\
         Forall2 (fun s td => example_dtd tt (srv_TaskDefinition s) = Ok td) services tds /\
         Forall2 (fun td p => taskDefinitionToProcess td = Ok p) tds ps /\
         log = ReqListAppServices "acme" (Some (cluster example_ecs_manager)) ::
               ReqDescribeServices (Some (cluster example_ecs_manager)) arns ::
               map (fun s => ReqDescribeTaskDefinition (srv_TaskDefinition s)) services))).
Proof.
  do 2 eexists. split; [vm_compute; reflexivity|].
  apply (ecsProcesses_success unit example_las example_ds example_dtd
           example_ecs_manager "acme" tt tt).
  vm_compute. reflexivity.
Defined.

Lemma ecsProcesses_error_witness :
  exists log ps e,
    ecsProcesses unit example_las example_ds web_only_dtd example_ecs_manager "acme" tt
      = (tt, log, (ps, Some e)) /\
    (tt = tt /\
     ((ps = [] /\
       (example_las tt "acme" (Some (cluster example_ecs_manager)) = Err e \/
        exists arns, example_las tt "acme" (Some (cluster example_ecs_manager)) = Ok arns /\
          arns <> [] /\ example_ds tt (Some (cluster example_ecs_manager)) arns = Err e)) \/
      (exists arns services k s tds,
         example_las tt "acme" (Some (cluster example_ecs_manager)) = Ok arns /\
         arns <> [] /\
         example_ds tt (Some (cluster example_ecs_manager)) arns = Ok services /\
         services !! k = Some s /\
         Forall2 (fun s td => web_only_dtd tt (srv_TaskDefinition s) = Ok td)
                 (take k services) tds /\
         Forall2 (fun td p => taskDefinitionToProcess td = Ok p) tds ps /\
         (web_only_dtd tt (srv_TaskDefinition s) = Err e \/
          exists td, web_only_dtd tt (srv_TaskDefinition s) = Ok td /\
                     taskDefinitionToProcess td = Err e)))).
Proof.
  do 3 eexists. split; [vm_compute; reflexivity|].
  eapply (ecsProcesses_error unit example_las example_ds web_only_dtd
           example_ecs_manager "acme" tt tt).
  vm_compute. reflexivity.
Defined.

Lemma SchedulerInstances_success_witness :
  exists w' log is,
    SchedulerInstances Z example_dtd example_lat example_dts example_resource_id
      example_now "empire" "acme" 100%Z = (w', log, (is, None)) /\
    exists arns, example_lat 100%Z "acme" (Some "empire") = Ok arns /\
    ((arns = [] /\ is = [] /\ w' = 100%Z /\ log = [ReqListAppTasks "acme" (Some "empire")]) \/
     (arns <> [] /\ exists tasks,
        example_dts 100%Z (Some "empire") arns = (tasks, None) /\
        Forall2 (instance_of_task Z example_dtd example_resource_id 100%Z) tasks is /\
        (w', map inst_UpdatedAt is) = clockReads example_now (length tasks) 100%Z /\
        log = ReqListAppTasks "acme" (Some "empire") ::
              ReqDescribeTasks (Some "empire") arns ::
              map (fun t => ReqDescribeTaskDefinition (task_TaskDefinitionArn t)) tasks)).
Proof.
  do 3 eexists. split; [vm_compute; reflexivity|].
  apply (SchedulerInstances_success Z example_dtd example_lat example_dts
           example_resource_id example_now).
  - intros w1 w2 a. reflexivity.
  - vm_compute. reflexivity.
Defined.

Lemma taskDefinition_round_trip_dropped_witness :
  exists ri, taskDefinitionInput lb_web_process = Ok ri /\
    (rtd_Family ri = Some (Type_ lb_web_process) /\
     (exists c, rtd_ContainerDefinitions ri = [c] /\
        cd_Image c = Some (Image lb_web_process) /\
        cd_PortMappings c =
          map (fun m => {| pmap_HostPort := Host m; pmap_ContainerPort := Container m |})
              (Ports lb_web_process)) /\
     exists q, taskDefinitionToProcess (registered ri (Some "arn:td/web:1")) = Ok q /\
       Type_ q = Type_ lb_web_process /\ Image q = "" /\ Instances q = 0%Z /\
       Ports q = [] /\ LoadBalancer q = "").
Proof.
  eexists. split; [vm_compute; reflexivity|].
  apply (taskDefinition_round_trip_dropped lb_web_process _ (Some "arn:td/web:1")).
  vm_compute. reflexivity.
Defined.

Lemma taskDefinitionToProcess_env_last_witness :
  td_ContainerDefinitions web_td = [web_container; worker_container] /\
  exists q, taskDefinitionToProcess web_td = Ok q /\
    forall k, Env q !! k = last (omap (env_entry_for k) (cd_Environment web_container)).
Proof.
  split; [reflexivity|].
  apply (taskDefinitionToProcess_env_last web_td web_container [worker_container]).
  reflexivity.
Defined.
